(** * Sudoku board: constraint check, validation and backtracking solver

    A shallow embedding of the algorithmic core of [script.js]
    ([isSafe], [validateBoard], [findEmpty], [solveSudoku] and the
    board-building loop of [loadPuzzle]) together with the properties
    stated about it, and of what surrounds that core: the grid of inputs
    ([createBoard] and its two handlers, [getBoard], [setBoard],
    [clearHighlights]), the feedback on one cell ([markValidity]) and the
    buttons ([onSolve], [onClear], [generateNext]).

    A board is the array of arrays of numbers that [getBoard] builds: a
    list of rows, each a list of integers.  Reading and writing go through
    [read] and [write], which raise where JavaScript raises.  The board is
    mutated in place by the source; here every function that writes takes
    the board and gives the new board back. *)

From Stdlib Require Import ZArith Lia Ascii String.
From stdpp Require Import base decidable option list list_numbers strings sorting pretty.

Local Open Scope Z_scope.
Local Open Scope nat_scope.

(** ** Outcomes of a call *)

(** A call returns a value, raises a [TypeError] (a property of
    [undefined] is read or written), or needs a deeper call stack than
    the model was given. *)
Inductive outcome (A : Type) : Type :=
  | Ret (a : A)
  | TypeError
  | OutOfFuel.
Arguments Ret {A} a.
Arguments TypeError {A}.
Arguments OutOfFuel {A}.

Global Instance outcome_ret : MRet outcome := λ A a, Ret a.
Global Instance outcome_bind : MBind outcome := λ A B f m,
  match m with
  | Ret a => f a
  | TypeError => TypeError
  | OutOfFuel => OutOfFuel
  end.

(** ** Boards *)

Definition SIZE : nat := 9.

Abbreviation Board := (list (list Z)).

(** [board[r][c]] as an expression: raises when [board[r]] is undefined,
    and is [undefined] ([None]) when the row has no index [c]. *)
Definition read (board : Board) (r c : nat) : outcome (option Z) :=
  match board !! r with
  | None => TypeError
  | Some row => Ret (row !! c)
  end.

(** [board[r][c] = v].  Raises when [board[r]] is undefined.  Every write
    of the source goes to a cell it has just read a number from, so [c] is
    an index of the row; past the end JavaScript would grow the row, which
    is left out here (the row stays as it is). *)
Definition write (board : Board) (r c : nat) (v : Z) : outcome Board :=
  match board !! r with
  | None => TypeError
  | Some row => Ret (<[r := <[c := v]> row]> board)
  end.

(** The cells a loop visits, in the order it visits them. *)
Definition row_cells (r : nat) : list (nat * nat) :=
  (λ j, (r, j)) <$> seq 0 SIZE.
Definition col_cells (c : nat) : list (nat * nat) :=
  (λ i, (i, c)) <$> seq 0 SIZE.
Definition box_cells (r c : nat) : list (nat * nat) :=
  let br := r / 3 * 3 in
  let bc := c / 3 * 3 in
  i ← seq 0 3; (λ j, (br + i, bc + j)) <$> seq 0 3.
Definition all_cells : list (nat * nat) :=
  r ← seq 0 SIZE; row_cells r.

(** [for (cell of cells) if (board[i][j] === val) return cell; return null]:
    the first cell of [cells] that holds [val]. *)
Fixpoint scan (board : Board) (val : Z) (cells : list (nat * nat))
  : outcome (option (nat * nat)) :=
  match cells with
  | [] => Ret None
  | (i, j) :: rest =>
      x ← read board i j;
      if bool_decide (x = Some val) then Ret (Some (i, j))
      else scan board val rest
  end.

(** ** The constraint check *)

Definition isSafe (board : Board) (r c : nat) (val : Z) : outcome bool :=
  hit ← scan board val (row_cells r);
  if hit is Some _ then Ret false else
  hit ← scan board val (col_cells c);
  if hit is Some _ then Ret false else
  hit ← scan board val (box_cells r c);
  if hit is Some _ then Ret false else
  Ret true.

(** ** The validator *)

(** The body of the two loops of [validateBoard] at one cell.  The state
    is the local board [b], the flag [valid] and the cells whose input
    was given the class [invalid], in the order they were marked. *)
Definition validate_cell (st : Board * bool * list (nat * nat)) (p : nat * nat)
  : outcome (Board * bool * list (nat * nat)) :=
  let '(b, valid, marked) := st in
  let '(r, c) := p in
  x ← read b r c;
  match x with
  | Some v =>
      if bool_decide (v = 0%Z) then Ret (b, valid, marked)
      else
        b1 ← write b r c 0%Z;
        ok ← isSafe b1 r c v;
        b2 ← write b1 r c v;
        Ret (if (ok : bool) then (b2, valid, marked)
             else (b2, false, marked ++ [(r, c)]))
  | None => Ret (b, valid, marked)
  end.

Fixpoint validate_loop (st : Board * bool * list (nat * nat))
    (cells : list (nat * nat)) : outcome (Board * bool * list (nat * nat)) :=
  match cells with
  | [] => Ret st
  | p :: rest => st' ← validate_cell st p; validate_loop st' rest
  end.

(** [validateBoard] on the board [b] that [getBoard] hands it: the
    returned flag, the cells marked invalid, and the board [b] as the
    loops leave it.  ([clearHighlights] has emptied the marks before.) *)
Definition validateBoard (b : Board) : outcome (bool * list (nat * nat) * Board) :=
  '(b', valid, marked) ← validate_loop (b, true, []) all_cells;
  Ret (valid, marked, b').

(** Two calls in succession, the second on the board the first has left:
    the two results and the board at the end. *)
Definition validate_twice (b : Board)
  : outcome ((bool * list (nat * nat)) * (bool * list (nat * nat)) * Board) :=
  '(res1, b1) ← validateBoard b;
  '(res2, b2) ← validateBoard b1;
  Ret (res1, res2, b2).

(** ** The solver *)

Definition findEmpty (board : Board) : outcome (option (nat * nat)) :=
  scan board 0%Z all_cells.

Definition digits : list Z := seqZ 1 9.

(** The loop [for (d = 1; d <= 9; d++)] of [solveSudoku] at the cell
    [(r, c)], from the digits [ds] still to try; [solve] is the recursive
    call. *)
Fixpoint try_digits (solve : Board → outcome (bool * Board)) (r c : nat)
    (ds : list Z) (board : Board) : outcome (bool * Board) :=
  match ds with
  | [] => Ret (false, board)
  | d :: ds' =>
      safe ← isSafe board r c d;
      if (safe : bool) then
        board1 ← write board r c d;
        '(ok, board2) ← solve board1;
        if (ok : bool) then Ret (true, board2)
        else
          board3 ← write board2 r c 0%Z;
          try_digits solve r c ds' board3
      else try_digits solve r c ds' board
  end.

(** [solveSudoku] with a bound on the depth of the recursion: [fuel] is
    the number of nested recursive calls the call may make. *)
Fixpoint solveSudoku (fuel : nat) (board : Board) : outcome (bool * Board) :=
  pos ← findEmpty board;
  match pos with
  | None => Ret (true, board)
  | Some (r, c) =>
      match fuel with
      | O => OutOfFuel
      | S fuel' => try_digits (solveSudoku fuel') r c digits board
      end
  end.

(** ** Loading a puzzle string *)

(** The value of a decimal digit; [None] for any other character. *)
Definition decimal_digit (ch : ascii) : option Z :=
  let n := nat_of_ascii ch in
  if bool_decide (48 ≤ n ≤ 57) then Some (Z.of_nat (n - 48)) else None.

(** The white space of JavaScript's string-to-number conversion among the
    code units 0-255: tab, line feed, vertical tab, form feed, carriage
    return, space and no-break space.  (A character of a string stands
    for the code unit of its number.) *)
Definition white_space (ch : ascii) : bool :=
  bool_decide (nat_of_ascii ch ∈ [9; 10; 11; 12; 13; 32; 160]).

(** [Number(ch)] for a one-character string [ch]: the digit it is, or 0
    when it is white space (the string trims to the empty string).  For
    any other character the source gets [NaN], which is no cell value of
    this model: [None]. *)
Definition Number (ch : ascii) : option Z :=
  match decimal_digit ch with
  | Some d => Some d
  | None => if white_space ch then Some 0%Z else None
  end.

(** The value [v] that the loop of [loadPuzzle] computes at index [i]. *)
Definition cell_value (str : string) (i : nat) : option Z :=
  match String.get i str with
  | Some ch =>
      if bool_decide (ch = "."%char ∨ ch = "0"%char) then Some 0%Z
      else Number ch
  | None => None
  end.

Fixpoint load_loop (str : string) (idx : list nat) (board : Board)
  : outcome (option Board) :=
  match idx with
  | [] => Ret (Some board)
  | i :: rest =>
      match cell_value str i with
      | Some v =>
          board' ← write board (i / 9) (i mod 9) v;
          load_loop str rest board'
      | None => Ret None
      end
  end.

(** The board that [loadPuzzle] builds from a puzzle string and hands to
    [setBoard]; [None] when the string has, among its first 81
    characters, one that is not a digit, a dot or white space. *)
Definition loadPuzzle (str : string) : outcome (option Board) :=
  load_loop str (seq 0 81) (replicate SIZE (replicate SIZE 0%Z)).

Definition PUZZLE_EASY : string :=
  "530070000600195000098000060800060003400803001700020006060000280000419005000080079".

(** ** The presets *)

Definition PUZZLE_MEDIUM : string :=
  "000260701680070090190004500820100040004602900050003028009300074040050036703018000".
Definition PUZZLE_HARD : string :=
  "005300000800000020070010500400005300010070006003200080060500009004000030000009700".
Definition PUZZLE_VERY_HARD : string :=
  "000000907000420180000705026100904000050000040000507009920108000034059000507000000".

Definition PUZZLES : list string :=
  [PUZZLE_EASY; PUZZLE_MEDIUM; PUZZLE_HARD; PUZZLE_VERY_HARD].

(** [generateNext] from the current [puzzleIndex]: the new index and the
    string handed to [loadPuzzle] ([None] for [undefined]). *)
Definition generateNext (puzzleIndex : nat) : nat * option string :=
  let puzzleIndex' := (puzzleIndex + 1) mod length PUZZLES in
  (puzzleIndex', PUZZLES !! puzzleIndex').

(** ** The solver with the history of the working board *)

(** The same two functions, with every board the working board goes
    through recorded: each assignment [board[r][c] = ...] appends the
    board it leaves to the log. *)
Fixpoint try_digits_log
    (solve : Board → list Board → outcome (bool * Board * list Board))
    (r c : nat) (ds : list Z) (board : Board) (log : list Board)
  : outcome (bool * Board * list Board) :=
  match ds with
  | [] => Ret (false, board, log)
  | d :: ds' =>
      safe ← isSafe board r c d;
      if (safe : bool) then
        board1 ← write board r c d;
        '(ok, board2, log2) ← solve board1 (log ++ [board1]);
        if (ok : bool) then Ret (true, board2, log2)
        else
          board3 ← write board2 r c 0%Z;
          try_digits_log solve r c ds' board3 (log2 ++ [board3])
      else try_digits_log solve r c ds' board log
  end.

Fixpoint solveSudoku_log (fuel : nat) (board : Board) (log : list Board)
  : outcome (bool * Board * list Board) :=
  pos ← findEmpty board;
  match pos with
  | None => Ret (true, board, log)
  | Some (r, c) =>
      match fuel with
      | O => OutOfFuel
      | S fuel' => try_digits_log (solveSudoku_log fuel') r c digits board log
      end
  end.

(** The call without its log. *)
Definition forget (m : outcome (bool * Board * list Board))
  : outcome (bool * Board) :=
  '(ok, board, _) ← m; Ret (ok, board).

(** ** Feedback on one cell *)

(** [markValidity(r, c)] on the board [b] that [getBoard] hands it: the
    class added to the input of the cell, if any, and the status shown,
    its text and its type. *)
Definition markValidity (b : Board) (r c : nat)
  : outcome (option string * (string * string)) :=
  x ← read b r c;
  match x with
  | Some v =>
      if bool_decide (v = 0%Z) then Ret (None, ("Empty cell", "info")%string)
      else
        b1 ← write b r c 0%Z;
        ok ← isSafe b1 r c v;
        Ret (Some (if (ok : bool) then "ok" else "invalid")%string,
             if ok then ("Looks valid", "ok")%string
             else ("Conflict detected", "error")%string)
  | None => Ret (None, ("Empty cell", "info")%string)
  end.

(** ** The solve button *)

(** [onSolve] on the board [b] that [getBoard] hands it: the board given
    to [setBoard], if it is called, the cells [validateBoard] has marked,
    and the text of the toast.  (The status text of a solved board holds
    the time taken and is left out.) *)
Definition onSolve (fuel : nat) (b : Board)
  : outcome (option Board * list (nat * nat) * string) :=
  '(valid, marked, _) ← validateBoard b;
  if negb valid then Ret (None, marked, "Fix conflicts first"%string)
  else
    let copy := b in
    '(ok, board) ← solveSudoku fuel b;
    if (ok : bool) then Ret (Some board, marked, "Solved!"%string)
    else Ret (Some copy, marked, "No solution found"%string).

(** ** The grid of inputs *)

(** An input element of the grid: its [dataset.row] and [dataset.col]
    (as the numbers they are written from and read back into), its
    [value], its [readOnly] flag and its [classList]. *)
Record input : Type := Input {
  dataset_row : nat;
  dataset_col : nat;
  value : string;
  readOnly : bool;
  classList : list string
}.

(** [classList.add], [classList.remove] and [classList.toggle(c, force)]:
    a class list holds a class at most once. *)
Definition class_add (c : string) (l : list string) : list string :=
  if decide (c ∈ l) then l else l ++ [c].
Definition class_remove (c : string) (l : list string) : list string :=
  filter (λ x, x ≠ c) l.
Definition class_toggle (c : string) (force : bool) (l : list string)
  : list string :=
  if force then class_add c l else class_remove c l.

(** The list [inputs] as [createBoard] fills it: one fresh input for each
    cell, row by row. *)
Definition createBoard : list input :=
  r ← seq 0 SIZE; c ← seq 0 SIZE; [Input r c "" false []].

(** The characters the two input handlers keep: the digits 1-9. *)
Definition is_1_9 (ch : ascii) : bool :=
  bool_decide (49 ≤ nat_of_ascii ch ≤ 57).

(** The [beforeinput] handler: is the edit prevented?  [data] is
    [e.data], [None] for [null]; the test [/[1-9]/] looks for a digit 1-9
    anywhere in it. *)
Fixpoint has_1_9 (s : string) : bool :=
  match s with
  | EmptyString => false
  | String ch s' => is_1_9 ch || has_1_9 s'
  end.
Definition beforeinput_prevented (data : option string) : bool :=
  match data with
  | None => false
  | Some s => negb (has_1_9 s)
  end.

(** [s.replace(/[^1-9]/g, '')], the cleaning of the [input] handler. *)
Fixpoint keep_1_9 (s : string) : string :=
  match s with
  | EmptyString => EmptyString
  | String ch s' => if is_1_9 ch then String ch (keep_1_9 s') else keep_1_9 s'
  end.

(** [+s] for a string [s] of at most 15 decimal digits (the empty string
    gives 0).  For any other string the source gets another number or
    [NaN], which this model leaves out: [None]. *)
Fixpoint digits_value (s : string) (acc : Z) : option Z :=
  match s with
  | EmptyString => Some acc
  | String ch s' => d ← decimal_digit ch; digits_value s' (10 * acc + d)%Z
  end.
Definition to_number (s : string) : option Z :=
  if bool_decide (String.length s ≤ 15) then digits_value s 0%Z else None.

(** [String(v)] for an integer [v]: its decimal numeral.  (From 10^21 on
    JavaScript writes an exponent, which is left out.) *)
Definition String_of (v : Z) : string := pretty v.

(** [inp.value ? +inp.value : 0]. *)
Definition input_number (inp : input) : option Z :=
  if bool_decide (value inp = EmptyString) then Some 0%Z
  else to_number (value inp).

(** The loop of [getBoard] over the inputs. *)
Fixpoint getBoard_loop (inputs : list input) (b : Board)
  : outcome (option Board) :=
  match inputs with
  | [] => Ret (Some b)
  | inp :: rest =>
      match input_number inp with
      | Some v =>
          b' ← write b (dataset_row inp) (dataset_col inp) v;
          getBoard_loop rest b'
      | None => Ret None
      end
  end.

(** [getBoard]: the board read from the inputs; [None] when the value of
    some input is not a number of the model. *)
Definition getBoard (inputs : list input) : outcome (option Board) :=
  getBoard_loop inputs (replicate SIZE (replicate SIZE 0%Z)).

(** The body of the loop of [setBoard] at one input; [mask] is [None]
    for [null]. *)
Definition setBoard_input (board : Board) (mask : option Board) (inp : input)
  : outcome input :=
  let r := dataset_row inp in
  let c := dataset_col inp in
  v ← read board r c;
  let text :=
    match v with
    | Some v => if bool_decide (v = 0%Z) then EmptyString else String_of v
    | None => EmptyString
    end in
  match mask with
  | Some m =>
      f ← read m r c;
      let fixed :=
        match f with
        | Some f => negb (bool_decide (f = 0%Z))
        | None => false
        end in
      Ret (Input r c text fixed (class_toggle "prefilled" fixed (classList inp)))
  | None =>
      Ret (Input r c text false (class_remove "prefilled" (classList inp)))
  end.

Fixpoint setBoard (board : Board) (mask : option Board) (inputs : list input)
  : outcome (list input) :=
  match inputs with
  | [] => Ret []
  | inp :: rest =>
      inp' ← setBoard_input board mask inp;
      rest' ← setBoard board mask rest;
      Ret (inp' :: rest')
  end.

(** [clearHighlights]. *)
Definition clearHighlights (inputs : list input) : list input :=
  (λ inp, Input (dataset_row inp) (dataset_col inp) (value inp) (readOnly inp)
            (class_remove "ok" (class_remove "invalid" (classList inp))))
    <$> inputs.

(** [onClear]: the inputs it leaves and the status text. *)
Definition onClear (inputs : list input) : outcome (list input * string) :=
  let inputs1 := clearHighlights inputs in
  let zeros := replicate SIZE (replicate SIZE 0%Z) in
  inputs2 ← setBoard zeros None inputs1;
  let inputs3 : list input :=
    (λ inp, Input (dataset_row inp) (dataset_col inp) (value inp) false
              (class_remove "prefilled" (classList inp))) <$> inputs2 in
  Ret (inputs3, "Cleared"%string).

(** The loop of [loadPuzzle] once more, with the mask it fills beside
    the board. *)
Fixpoint load_loop_mask (str : string) (idx : list nat) (board mask : Board)
  : outcome (option (Board * Board)) :=
  match idx with
  | [] => Ret (Some (board, mask))
  | i :: rest =>
      match cell_value str i with
      | Some v =>
          board' ← write board (i / 9) (i mod 9) v;
          mask' ← write mask (i / 9) (i mod 9)
                    (if bool_decide (v = 0%Z) then 0 else 1)%Z;
          load_loop_mask str rest board' mask'
      | None => Ret None
      end
  end.

(** [loadPuzzle] with what it does to the inputs: the board and the mask
    are built and handed to [setBoard]. *)
Definition loadPuzzle_inputs (str : string) (inputs : list input)
  : outcome (option (list input)) :=
  let zeros := replicate SIZE (replicate SIZE 0%Z) in
  o ← load_loop_mask str (seq 0 81) zeros zeros;
  match o with
  | Some (board, mask) =>
      inputs' ← setBoard board (Some mask) inputs;
      Ret (Some inputs')
  | None => Ret None
  end.

(** ** Vocabulary of the specification *)

(** A well-formed board: nine rows of nine numbers. *)
Definition wf (b : Board) : Prop :=
  length b = SIZE ∧ Forall (λ row, length row = SIZE) b.

Definition on_board (p : nat * nat) : Prop := p.1 < SIZE ∧ p.2 < SIZE.

(** The number at a cell, if the board has that cell. *)
Definition cell (b : Board) (p : nat * nat) : option Z :=
  row ← b !! p.1; row !! p.2.

(** The board with one cell overwritten. *)
Definition upd (b : Board) (p : nat * nat) (v : Z) : Board :=
  alter (<[p.2 := v]>) p.1 b.

(** Two cells share a row, a column or a 3x3 box. *)
Definition same_unit (p q : nat * nat) : Prop :=
  p.1 = q.1 ∨ p.2 = q.2 ∨ (p.1 / 3 = q.1 / 3 ∧ p.2 / 3 = q.2 / 3).

(** [q] is another cell of a row, column or box of [p]. *)
Definition peer (p q : nat * nat) : Prop := p ≠ q ∧ same_unit p q.

(** [val] is held by some cell of the row, column or box of [p]. *)
Definition occurs (b : Board) (val : Z) (p : nat * nat) : Prop :=
  ∃ q, on_board q ∧ same_unit p q ∧ cell b q = Some val.

(** [val] is held by some cell of those other than [p] itself. *)
Definition occurs_elsewhere (b : Board) (val : Z) (p : nat * nat) : Prop :=
  ∃ q, on_board q ∧ peer p q ∧ cell b q = Some val.

(** The uniqueness constraint: no placed digit is repeated in a row,
    column or box. *)
Definition consistent (b : Board) : Prop :=
  ∀ p q, on_board p → on_board q → peer p q →
    ∀ v, cell b p = Some v → v ≠ 0%Z → cell b q ≠ Some v.

(** The digit at [p], if there is one, is not the number at [q]. *)
Definition differs (b : Board) (p q : nat * nat) : Prop :=
  match cell b p with
  | Some v => v ≠ 0%Z → cell b q ≠ Some v
  | None => True
  end.

(** The cell [p] holds a digit that one of its peers holds too. *)
Definition conflict (b : Board) (p : nat * nat) : Prop :=
  ∃ v, cell b p = Some v ∧ v ≠ 0%Z ∧ occurs_elsewhere b v p.

Definition count_zero (row : list Z) : nat :=
  length (filter (λ v, v = 0%Z) row).

(** The number of empty cells. *)
Definition count_empty (b : Board) : nat := sum_list (count_zero <$> b).

Definition no_empty (b : Board) : Prop :=
  ∀ p, on_board p → cell b p ≠ Some 0%Z.

(** The clues of [b] are where they were in [f]. *)
Definition keeps (b f : Board) : Prop :=
  ∀ p v, cell b p = Some v → v ≠ 0%Z → cell f p = Some v.

(** Every empty cell of [b] holds in [f] a digit that none of its peers
    holds. *)
Definition placed_ok (b f : Board) : Prop :=
  ∀ p, cell b p = Some 0%Z →
    ∃ d, (1 ≤ d ≤ 9)%Z ∧ cell f p = Some d ∧
         ∀ q, on_board q → peer p q → cell f q ≠ Some d.

(** What [solveSudoku] promises of the board [f] it leaves from [b]. *)
Definition solve_post (b : Board) (ok : bool) (f : Board) : Prop :=
  if ok then wf f ∧ keeps b f ∧ placed_ok b f else f = b.

(** The numbers of a list of cells. *)
Definition vals (b : Board) (cells : list (nat * nat)) : list (option Z) :=
  cell b <$> cells.

(** The empty board, and the board with the digit [d] at the two cells
    [(r, c1)] and [(r, c2)] of one row and nothing else. *)
Definition empty_board : Board := replicate SIZE (replicate SIZE 0%Z).
Definition two_in_row (r c1 c2 : nat) (d : Z) : Board :=
  upd (upd empty_board (r, c1) d) (r, c2) d.

(** The solved grid of the first preset, and the same grid with its
    first cell emptied and a second 5 next to it, where no digit fits. *)
Definition solved_board : Board :=
  [[5; 3; 4; 6; 7; 8; 9; 1; 2];
   [6; 7; 2; 1; 9; 5; 3; 4; 8];
   [1; 9; 8; 3; 4; 2; 5; 6; 7];
   [8; 5; 9; 7; 6; 1; 4; 2; 3];
   [4; 2; 6; 8; 5; 3; 7; 9; 1];
   [7; 1; 3; 9; 2; 4; 8; 5; 6];
   [9; 6; 1; 5; 3; 7; 2; 8; 4];
   [2; 8; 7; 4; 1; 9; 6; 3; 5];
   [3; 4; 5; 2; 8; 6; 1; 7; 9]]%Z.
Definition stuck_board : Board :=
  upd (upd solved_board (0, 0) 0%Z) (0, 1) 5%Z.

(** The grid the solver fills the empty board with. *)
Definition first_grid : Board :=
  [[1; 2; 3; 4; 5; 6; 7; 8; 9];
   [4; 5; 6; 7; 8; 9; 1; 2; 3];
   [7; 8; 9; 1; 2; 3; 4; 5; 6];
   [2; 1; 4; 3; 6; 5; 8; 9; 7];
   [3; 6; 5; 8; 9; 7; 2; 1; 4];
   [8; 9; 7; 2; 1; 4; 3; 6; 5];
   [5; 3; 1; 6; 4; 2; 9; 7; 8];
   [6; 4; 2; 9; 7; 8; 5; 3; 1];
   [9; 7; 8; 5; 3; 1; 6; 4; 2]]%Z.

(** The board of the first preset. *)
Definition easy_board : Board :=
  [[5; 3; 0; 0; 7; 0; 0; 0; 0];
   [6; 0; 0; 1; 9; 5; 0; 0; 0];
   [0; 9; 8; 0; 0; 0; 0; 6; 0];
   [8; 0; 0; 0; 6; 0; 0; 0; 3];
   [4; 0; 0; 8; 0; 3; 0; 0; 1];
   [7; 0; 0; 0; 2; 0; 0; 0; 6];
   [0; 6; 0; 0; 0; 0; 2; 8; 0];
   [0; 0; 0; 4; 1; 9; 0; 0; 5];
   [0; 0; 0; 0; 8; 0; 0; 7; 9]]%Z.

(** The solved grid with three cells emptied, where the first digit that
    fits the first empty cell is the wrong one. *)
Definition dented_board : Board :=
  upd (upd (upd solved_board (0, 0) 0%Z) (0, 2) 0%Z) (4, 0) 0%Z.

(** ** Further vocabulary *)

(** [q] comes before [p] in the order the double loops visit the cells:
    row by row, and left to right within a row. *)
Definition before (q p : nat * nat) : Prop :=
  q.1 < p.1 ∨ (q.1 = p.1 ∧ q.2 < p.2).

(** Every entry is 0 or a digit, as in the boards [getBoard] reads from
    inputs that hold at most one character 1-9. *)
Definition digit_board (b : Board) : Prop :=
  ∀ p v, cell b p = Some v → (0 ≤ v ≤ 9)%Z.

(** Every cell holds a digit 1-9. *)
Definition complete (f : Board) : Prop :=
  ∀ p, on_board p → ∃ d, (1 ≤ d ≤ 9)%Z ∧ cell f p = Some d.

(** [g] solves [b]: a 9x9 board of digits 1-9 with the clues of [b] and
    no digit twice in a row, column or box. *)
Definition solution (b g : Board) : Prop :=
  wf g ∧ keeps b g ∧ consistent g ∧ complete g.

(** Every row, column and 3x3 box is a permutation of the digits 1-9. *)
Definition all_units_perm (f : Board) : Prop :=
  Forall (λ k,
    vals f (row_cells k) ≡ₚ Some <$> digits ∧
    vals f (col_cells k) ≡ₚ Some <$> digits ∧
    vals f (box_cells (k / 3 * 3) (k mod 3 * 3)) ≡ₚ Some <$> digits)
    (seq 0 SIZE).

(** The cells of a row, a column or a box: nine cells of the board, any
    two of which share that row, column or box. *)
Definition unit_cells (cells : list (nat * nat)) : Prop :=
  length cells = 9 ∧ NoDup cells ∧ Forall on_board cells ∧
  Forall (λ p, Forall (same_unit p) cells) cells.

(** At the cell [p], [g] holds a digit 1-9, which is the clue of [b] if
    [b] has one there. *)
Definition solves_at (b g : Board) (p : nat * nat) : Prop :=
  match cell b p, cell g p with
  | Some v, Some d => (1 ≤ d ≤ 9)%Z ∧ (v = 0%Z ∨ d = v)
  | _, _ => False
  end.

(** [f] is [g], or is smaller at the first cell, in the order of the
    loops, where the two differ. *)
Definition lex_le (f g : Board) : Prop :=
  (∀ p, on_board p → cell f p = cell g p) ∨
  ∃ p x y, on_board p ∧ cell f p = Some x ∧ cell g p = Some y ∧ (x < y)%Z ∧
           ∀ q, on_board q → before q p → cell f q = cell g q.

(** The cell an input stands for. *)
Definition position (inp : input) : nat * nat :=
  (dataset_row inp, dataset_col inp).

(** The inputs are those of the 81 cells, row by row, as [createBoard]
    pushes them. *)
Definition laid_out (inputs : list input) : Prop :=
  position <$> inputs = all_cells.

(** The value of an input is empty or one character 1-9, as typing and
    the cleaning of the [input] handler leave it. *)
Definition clean_input (inp : input) : Prop :=
  String.length (value inp) ≤ 1 ∧ keep_1_9 (value inp) = value inp.

(** Every character of the string is a digit 1-9. *)
Fixpoint all_1_9 (s : string) : Prop :=
  match s with
  | EmptyString => True
  | String ch s' => is_1_9 ch = true ∧ all_1_9 s'
  end.

(** The mask handed to [setBoard], if there is one, is a 9x9 array. *)
Definition mask_ok (mask : option Board) : Prop :=
  match mask with
  | Some m => wf m
  | None => True
  end.

(** The cell of an input is marked in the mask. *)
Definition masked (mask : option Board) (p : nat * nat) : Prop :=
  ∃ m f, mask = Some m ∧ cell m p = Some f ∧ f ≠ 0%Z.

(** The solved grid with its first and last cells emptied and a 9 put
    next to the last: the digit that fits the first cell leaves none for
    the last, so it is placed and then undone. *)
Definition undone_board : Board :=
  upd (upd (upd solved_board (0, 0) 0%Z) (8, 8) 0%Z) (8, 7) 9%Z.

(** The mask of the first preset, and the grid once the preset is
    loaded: the clues are read-only and prefilled. *)
Definition easy_mask : Board :=
  (λ row : list Z,
     (λ v : Z, if bool_decide (v = 0%Z) then 0%Z else 1%Z) <$> row)
    <$> easy_board.
Definition loaded_inputs : list input :=
  (λ p, match cell easy_board p with
        | Some v =>
            if bool_decide (v = 0%Z) then Input p.1 p.2 "" false []
            else Input p.1 p.2 (String_of v) true ["prefilled"%string]
        | None => Input p.1 p.2 "" false []
        end) <$> all_cells.

(** The loaded grid after a second 5 is typed in the first row and
    [markValidity] has marked it. *)
Definition edited_inputs : list input :=
  <[2 := Input 0 2 "5" false ["invalid"%string]]> loaded_inputs.

(** * Properties *)

(** ** The embedding on small inputs *)

Example isSafe_free_digit : isSafe dented_board 0 0 4 = Ret true.
Proof. reflexivity. Qed.

Example isSafe_digit_in_column : isSafe dented_board 0 2 5 = Ret false.
Proof. reflexivity. Qed.

Example isSafe_no_row : isSafe [[1; 2]; [3; 4]]%Z 2 0 1 = TypeError.
Proof. reflexivity. Qed.

Example findEmpty_first : findEmpty dented_board = Ret (Some (0, 0)).
Proof. reflexivity. Qed.

Example findEmpty_none : findEmpty solved_board = Ret None.
Proof. reflexivity. Qed.

Example solveSudoku_too_deep : solveSudoku 2 dented_board = OutOfFuel.
Proof. vm_compute. reflexivity. Qed.

Example validateBoard_stuck :
  validateBoard stuck_board =
    Ret (false, [(0, 1); (3, 1)], stuck_board).
Proof. vm_compute. reflexivity. Qed.

(** ** Reading and writing cells *)

Lemma bind_Ret_l {A B} (f : A → outcome B) (x : A) : Ret x ≫= f = f x.
Proof. done. Qed.

Lemma bind_Ret {A B} (f : A → outcome B) (m : outcome A) (y : B) :
  m ≫= f = Ret y → ∃ x, m = Ret x ∧ f x = Ret y.
Proof. destruct m; simpl; [eauto | done | done]. Qed.

Ltac inv_bind H :=
  let x := fresh "x" in
  let Hx := fresh "Hx" in
  apply bind_Ret in H as (x & Hx & H).

Section cells.
Context (b : Board).

Lemma cell_on_board p v : wf b → cell b p = Some v → on_board p.
Proof.
  intros [Hlen Hrows]. unfold cell, on_board.
  destruct (b !! p.1) as [row|] eqn:Hrow; simpl; [|done].
  intros Hv. split.
  - apply lookup_lt_Some in Hrow. lia.
  - rewrite Forall_lookup in Hrows. apply Hrows in Hrow.
    apply lookup_lt_Some in Hv. lia.
Qed.

Lemma cell_is_Some p : wf b → on_board p → is_Some (cell b p).
Proof.
  intros [Hlen Hrows] [H1 H2]. unfold cell.
  destruct (lookup_lt_is_Some_2 b p.1) as [row Hrow]; [lia|].
  rewrite Hrow. simpl. apply lookup_lt_is_Some_2.
  rewrite Forall_lookup in Hrows. apply Hrows in Hrow. lia.
Qed.

Lemma read_Ret r c x : read b r c = Ret x → x = cell b (r, c).
Proof.
  unfold read, cell. simpl. destruct (b !! r); [|done]. by intros [= <-].
Qed.

Lemma read_wf r c : wf b → r < SIZE → read b r c = Ret (cell b (r, c)).
Proof.
  intros [Hlen _] Hr. unfold read, cell. simpl.
  destruct (lookup_lt_is_Some_2 b r) as [row Hrow]; [lia|].
  by rewrite Hrow.
Qed.

Lemma write_Ret r c v b' : write b r c v = Ret b' → b' = upd b (r, c) v.
Proof.
  unfold write, upd. simpl. destruct (b !! r) as [row|] eqn:Hrow; [|done].
  intros [= <-]. apply list_eq. intros i.
  rewrite list_lookup_alter, list_lookup_insert.
  destruct (decide (r = i)) as [->|].
  - rewrite Hrow. apply lookup_lt_Some in Hrow. by rewrite decide_True.
  - by rewrite decide_False by (intros [? ?]; congruence).
Qed.

Lemma write_wf r c v : wf b → r < SIZE → write b r c v = Ret (upd b (r, c) v).
Proof.
  intros [Hlen _] Hr.
  destruct (lookup_lt_is_Some_2 b r) as [row Hrow]; [lia|].
  destruct (write b r c v) as [b'| |] eqn:Hw.
  - by rewrite (write_Ret _ _ _ _ Hw).
  - unfold write in Hw. by rewrite Hrow in Hw.
  - unfold write in Hw. by rewrite Hrow in Hw.
Qed.

Lemma wf_upd p v : wf b → wf (upd b p v).
Proof.
  intros [Hlen Hrows]. unfold upd. split.
  - by rewrite length_alter.
  - rewrite Forall_lookup in Hrows |- *. intros i row.
    rewrite list_lookup_alter. case_decide; [|by apply Hrows].
    subst. destruct (b !! p.1) as [row'|] eqn:Hrow; simpl; [|done].
    intros [= <-]. rewrite length_insert. by eapply Hrows.
Qed.

Lemma cell_upd p q v :
  cell (upd b p v) q =
    if decide (p = q) then cell b p ≫= (λ _, Some v) else cell b q.
Proof.
  unfold cell, upd. destruct p as [r c], q as [r' c']. simpl.
  rewrite list_lookup_alter.
  destruct (decide (r = r')) as [->|Hr].
  - destruct (b !! r') as [row|]; simpl.
    + rewrite list_lookup_insert.
      destruct (decide (c = c')) as [->|Hc].
      * rewrite (decide_True (P := (r', c') = (r', c'))) by done.
        destruct (row !! c') eqn:Hc.
        -- apply lookup_lt_Some in Hc. by rewrite decide_True.
        -- apply lookup_ge_None in Hc. by rewrite decide_False by lia.
      * rewrite (decide_False (P := (r', c) = (r', c'))) by congruence.
        by rewrite decide_False by (intros [? ?]; congruence).
    + by case_decide.
  - by rewrite decide_False by congruence.
Qed.

Lemma cell_upd_eq p v : is_Some (cell b p) → cell (upd b p v) p = Some v.
Proof. intros [w Hw]. rewrite cell_upd, decide_True by done. by rewrite Hw. Qed.

Lemma cell_upd_ne p q v : p ≠ q → cell (upd b p v) q = cell b q.
Proof. intros. by rewrite cell_upd, decide_False. Qed.

Lemma upd_id p v : cell b p = Some v → upd b p v = b.
Proof.
  unfold cell, upd. intros Hv. apply list_eq. intros i.
  rewrite list_lookup_alter. case_decide; [|done]. subst.
  destruct (b !! p.1) as [row|]; simpl in *; [|done].
  f_equal. by apply list_insert_id.
Qed.

Lemma upd_upd p v w : upd (upd b p v) p w = upd b p w.
Proof.
  unfold upd. apply list_eq. intros i. rewrite !list_lookup_alter.
  case_decide; [|done]. rewrite decide_True by done.
  destruct (b !! p.1) as [row|]; simpl; [|done].
  by rewrite list_insert_insert_eq.
Qed.
End cells.

(** ** The cells the loops visit *)

Lemma elem_of_row_cells p r : p ∈ row_cells r ↔ p.1 = r ∧ p.2 < SIZE.
Proof.
  unfold row_cells. rewrite list_elem_of_fmap. setoid_rewrite elem_of_seq.
  destruct p as [i j]. simpl. split.
  - intros (x & [= -> ->] & ?). lia.
  - intros [-> ?]. exists j. split; [done | lia].
Qed.

Lemma elem_of_col_cells p c : p ∈ col_cells c ↔ p.2 = c ∧ p.1 < SIZE.
Proof.
  unfold col_cells. rewrite list_elem_of_fmap. setoid_rewrite elem_of_seq.
  destruct p as [i j]. simpl. split.
  - intros (x & [= -> ->] & ?). lia.
  - intros [-> ?]. exists i. split; [done | lia].
Qed.

Lemma box_offset i r : i / 3 = r / 3 ↔ ∃ x, x < 3 ∧ i = r / 3 * 3 + x.
Proof.
  split.
  - intros H. exists (i mod 3).
    pose proof (Nat.div_mod_eq i 3). pose proof (Nat.mod_upper_bound i 3). lia.
  - intros (x & Hx & ->).
    rewrite Nat.div_add_l by lia. rewrite (Nat.div_small x) by lia. lia.
Qed.

Lemma same_box_lt i r : i / 3 = r / 3 → r < SIZE → i < SIZE.
Proof.
  unfold SIZE. intros H Hr.
  pose proof (Nat.div_mod_eq i 3). pose proof (Nat.mod_upper_bound i 3).
  pose proof (Nat.div_mod_eq r 3). pose proof (Nat.mod_upper_bound r 3). lia.
Qed.

Lemma elem_of_box_cells p r c :
  p ∈ box_cells r c ↔ p.1 / 3 = r / 3 ∧ p.2 / 3 = c / 3.
Proof.
  unfold box_cells. rewrite list_elem_of_bind.
  setoid_rewrite list_elem_of_fmap. setoid_rewrite elem_of_seq.
  rewrite !box_offset. destruct p as [i j]. simpl. split.
  - intros (x & (y & [= -> ->] & ?) & ?). split; [exists x | exists y]; lia.
  - intros [(x & ? & ->) (y & ? & ->)]. exists x. split; [|lia].
    exists y. split; [done | lia].
Qed.

Lemma elem_of_all_cells p : p ∈ all_cells ↔ on_board p.
Proof.
  unfold all_cells, on_board. rewrite list_elem_of_bind.
  setoid_rewrite elem_of_row_cells. setoid_rewrite elem_of_seq. split.
  - intros (r & [<- ?] & ?). lia.
  - intros [? ?]. exists p.1. lia.
Qed.

Lemma same_unit_sym p q : same_unit p q → same_unit q p.
Proof.
  unfold same_unit.
  intros [?|[?|[? ?]]]; [left | right; left | right; right]; done.
Qed.

Lemma peer_sym p q : peer p q → peer q p.
Proof. intros [? ?]. split; [done | by apply same_unit_sym]. Qed.

(** ** The scan for a value *)

Lemma scan_Ret b val cells o :
  scan b val cells = Ret o →
  match o with
  | Some p => p ∈ cells ∧ cell b p = Some val
  | None => ∀ p, p ∈ cells → cell b p ≠ Some val
  end.
Proof.
  revert o. induction cells as [|[i j] rest IH]; intros o; simpl.
  - intros [= <-] p Hp. by apply elem_of_nil in Hp.
  - intros H. inv_bind H. apply read_Ret in Hx. subst x.
    case_bool_decide as Hv.
    + injection H as <-. split; [by left | done].
    + apply IH in H. destruct o as [p|].
      * destruct H. split; [by right | done].
      * intros p [->|Hp]%elem_of_cons; [done | by apply H].
Qed.

Lemma scan_total b val cells :
  wf b → Forall (λ p, p.1 < SIZE) cells → ∃ o, scan b val cells = Ret o.
Proof.
  intros Hwf. induction 1 as [|[i j] rest Hi _ [o IH]]; simpl in *; [eauto|].
  rewrite read_wf by done. simpl. case_bool_decide; eauto.
Qed.

(** ** The constraint check *)

Lemma isSafe_total b r c val :
  wf b → r < SIZE → ∃ ok, isSafe b r c val = Ret ok.
Proof.
  intros Hwf Hr. unfold isSafe.
  destruct (scan_total b val (row_cells r)) as [[?|] ->]; [done| |by eexists|].
  { apply Forall_forall. by intros p [-> _]%elem_of_row_cells. }
  destruct (scan_total b val (col_cells c)) as [[?|] ->]; [done| |by eexists|].
  { apply Forall_forall. by intros p [_ ?]%elem_of_col_cells. }
  destruct (scan_total b val (box_cells r c)) as [[?|] ->];
    [done| |by eexists..].
  apply Forall_forall. intros p [? _]%elem_of_box_cells.
  by eapply same_box_lt.
Qed.

Lemma isSafe_false b r c val :
  wf b → isSafe b r c val = Ret false → occurs b val (r, c).
Proof.
  intros Hwf H. unfold isSafe in H.
  inv_bind H. apply scan_Ret in Hx. destruct x as [q|].
  { destruct Hx as [[? ?]%elem_of_row_cells Hq]. exists q.
    split; [by eapply cell_on_board | split; [left; by simpl | done]]. }
  inv_bind H. apply scan_Ret in Hx0. destruct x as [q|].
  { destruct Hx0 as [[? ?]%elem_of_col_cells Hq]. exists q.
    split; [by eapply cell_on_board | split; [right; left; by simpl | done]]. }
  inv_bind H. apply scan_Ret in Hx1. destruct x as [q|]; [|done].
  destruct Hx1 as [[? ?]%elem_of_box_cells Hq]. exists q.
  split; [by eapply cell_on_board | split; [right; right; by simpl | done]].
Qed.

Lemma isSafe_true b r c val :
  isSafe b r c val = Ret true → ¬ occurs b val (r, c).
Proof.
  intros H (q & [Hq1 Hq2] & Hunit & Hq). unfold isSafe in H.
  inv_bind H. apply scan_Ret in Hx. destruct x as [?|]; [done|].
  inv_bind H. apply scan_Ret in Hx0. destruct x as [?|]; [done|].
  inv_bind H. apply scan_Ret in Hx1. destruct x as [?|]; [done|].
  destruct Hunit as [Hu|[Hu|[Hu1 Hu2]]]; simpl in *.
  - apply (Hx q); [by apply elem_of_row_cells | done].
  - apply (Hx0 q); [by apply elem_of_col_cells | done].
  - apply (Hx1 q); [by apply elem_of_box_cells | done].
Qed.

(** ** Deciding the vocabulary on a concrete board *)

Ltac by_compute := apply (bool_decide_unpack _); vm_compute; reflexivity.

Global Instance wf_dec b : Decision (wf b).
Proof. unfold wf. apply _. Defined.

Global Instance on_board_dec p : Decision (on_board p).
Proof. unfold on_board. apply _. Defined.

Global Instance same_unit_dec p q : Decision (same_unit p q).
Proof. unfold same_unit. apply _. Defined.

Global Instance peer_dec p q : Decision (peer p q).
Proof. unfold peer. apply _. Defined.

Lemma occurs_alt b val p :
  occurs b val p ↔ Exists (λ q, same_unit p q ∧ cell b q = Some val) all_cells.
Proof.
  unfold occurs. rewrite Exists_exists.
  by setoid_rewrite elem_of_all_cells.
Qed.

Lemma occurs_elsewhere_alt b val p :
  occurs_elsewhere b val p ↔
  Exists (λ q, peer p q ∧ cell b q = Some val) all_cells.
Proof.
  unfold occurs_elsewhere. rewrite Exists_exists.
  by setoid_rewrite elem_of_all_cells.
Qed.

Global Instance occurs_dec b val p : Decision (occurs b val p).
Proof.
  refine (cast_if
    (decide (Exists (λ q, same_unit p q ∧ cell b q = Some val) all_cells)));
    abstract (by rewrite occurs_alt).
Defined.

Global Instance occurs_elsewhere_dec b val p : Decision (occurs_elsewhere b val p).
Proof.
  refine (cast_if
    (decide (Exists (λ q, peer p q ∧ cell b q = Some val) all_cells)));
    abstract (by rewrite occurs_elsewhere_alt).
Defined.

Lemma occurs_elsewhere_occurs b val p :
  occurs_elsewhere b val p → occurs b val p.
Proof. intros (q & ? & [_ ?] & ?). by exists q. Qed.

Lemma occurs_other b val p :
  cell b p ≠ Some val → occurs b val p → occurs_elsewhere b val p.
Proof.
  intros Hp (q & ? & ? & Hq). exists q. split; [done|]. split; [|done].
  split; [|done]. by intros ->.
Qed.

(** C1, as amended.  On a 9x9 board, with coordinates in 0-8 and a digit
    1-9, [isSafe] returns, and it returns false exactly when the digit is
    held by some cell of the row, the column or the 3x3 box of the cell,
    the cell itself included.  When the cell does not hold the digit (when
    it is empty, say) this is the same as the digit being held by another
    cell of those. *)
Theorem isSafe_spec b r c d :
  wf b → r < SIZE → c < SIZE → (1 ≤ d ≤ 9)%Z →
  ∃ ok, isSafe b r c d = Ret ok ∧
    (ok = false ↔ occurs b d (r, c)) ∧
    (cell b (r, c) ≠ Some d → (ok = false ↔ occurs_elsewhere b d (r, c))).
Proof.
  intros Hwf Hr Hc _.
  destruct (isSafe_total b r c d Hwf Hr) as [ok Hok]. exists ok.
  assert (ok = false ↔ occurs b d (r, c)) as Hiff.
  { destruct ok.
    - split; [done|]. intros. by destruct (isSafe_true b r c d).
    - split; [|done]. intros _. by apply isSafe_false. }
  split; [done|]. split; [done|]. intros Hown. rewrite Hiff. split.
  - by apply occurs_other.
  - apply occurs_elsewhere_occurs.
Qed.

Lemma isSafe_spec_witness :
  wf empty_board ∧ 0 < SIZE ∧ 0 < SIZE ∧ (1 ≤ 5 ≤ 9)%Z ∧
  ∃ ok, isSafe empty_board 0 0 5 = Ret ok ∧
    (ok = false ↔ occurs empty_board 5 (0, 0)) ∧
    (cell empty_board (0, 0) ≠ Some 5%Z →
     (ok = false ↔ occurs_elsewhere empty_board 5 (0, 0))).
Proof.
  assert (wf empty_board) as Hwf by by_compute.
  assert (0 < SIZE) as Hlt by (unfold SIZE; lia).
  assert (1 ≤ 5 ≤ 9)%Z as Hd by lia.
  split; [exact Hwf|]. split; [exact Hlt|]. split; [exact Hlt|].
  split; [exact Hd|].
  apply (isSafe_spec empty_board 0 0 5 Hwf Hlt Hlt Hd).
Defined.

(** C1 as it was stated fails: on the board whose only digit is a 5 in
    the corner, [isSafe] at the corner with 5 returns false although no
    other cell holds a 5. *)
Lemma isSafe_inspects_own_cell :
  ¬ (∀ b r c d, wf b → r < SIZE → c < SIZE → (1 ≤ d ≤ 9)%Z →
       (isSafe b r c d = Ret false ↔ occurs_elsewhere b d (r, c))).
Proof.
  intros H.
  specialize (H (upd empty_board (0, 0) 5%Z) 0 0 5%Z).
  destruct H as [H _]; [by_compute | unfold SIZE; lia.. | ].
  assert (¬ occurs_elsewhere (upd empty_board (0, 0) 5%Z) 5 (0, 0)) as Hno
    by by_compute.
  apply Hno, H. by vm_compute.
Qed.

(** ** Empty cells *)

Lemma findEmpty_Ret b o :
  findEmpty b = Ret o →
  match o with
  | Some p => on_board p ∧ cell b p = Some 0%Z
  | None => no_empty b
  end.
Proof.
  intros H%scan_Ret. destruct o as [p|].
  - destruct H as [?%elem_of_all_cells ?]. done.
  - intros p Hp%elem_of_all_cells. by apply H.
Qed.

Lemma findEmpty_total b : wf b → ∃ o, findEmpty b = Ret o.
Proof.
  intros Hwf. apply scan_total; [done|].
  apply Forall_forall. by intros p [? _]%elem_of_all_cells.
Qed.

Lemma count_zero_insert row c d :
  row !! c = Some 0%Z → d ≠ 0%Z →
  S (count_zero (<[c := d]> row)) = count_zero row.
Proof.
  unfold count_zero. revert c.
  induction row as [|x row IH]; intros [|c] Hc Hd; simplify_eq/=.
  - by rewrite filter_cons, decide_False.
  - rewrite !filter_cons. case_decide; simpl; by rewrite IH.
Qed.

Lemma count_empty_upd b p d :
  cell b p = Some 0%Z → d ≠ 0%Z →
  S (count_empty (upd b p d)) = count_empty b.
Proof.
  unfold count_empty, upd, cell. destruct p as [r c]. simpl. revert r.
  induction b as [|row b IH]; intros [|r] Hp Hd; simplify_eq/=.
  - by rewrite <- (count_zero_insert row c d).
  - rewrite <- (IH r) by done. lia.
Qed.

Lemma count_zero_le row : count_zero row ≤ length row.
Proof. apply length_filter. Qed.

Lemma count_empty_le b : wf b → count_empty b ≤ SIZE * SIZE.
Proof.
  intros [Hlen Hrows]. rewrite <- Hlen at 1. unfold count_empty.
  clear Hlen. unfold SIZE in *.
  induction Hrows as [|row b Hrow _ IH]; csimpl; [lia|].
  pose proof (count_zero_le row). lia.
Qed.

(** ** The solver: what a returned call has done *)

Lemma solve_post_done b : wf b → no_empty b → solve_post b true b.
Proof.
  intros Hwf Hno. split; [done|]. split; [by intros p v|].
  intros p Hp. destruct (Hno p); [exact (cell_on_board b p _ Hwf Hp) | done].
Qed.

(** A placement that [isSafe] allowed, followed by a successful search. *)
Lemma solve_post_place b p d f :
  wf b → cell b p = Some 0%Z → (1 ≤ d ≤ 9)%Z → ¬ occurs b d p →
  solve_post (upd b p d) true f → solve_post b true f.
Proof.
  intros Hwf Hp Hd Hfree (Hwf' & Hkeep & Hplaced).
  assert (on_board p) as Hon by exact (cell_on_board b p _ Hwf Hp).
  assert (cell f p = Some d) as Hfp.
  { apply Hkeep; [|lia]. apply cell_upd_eq. by rewrite Hp. }
  split; [done|]. split.
  - intros q v Hq Hv. apply Hkeep; [|done].
    rewrite cell_upd_ne; [done|]. intros ->. congruence.
  - intros q Hq. destruct (decide (p = q)) as [<-|Hne].
    + exists d. split; [done|]. split; [done|].
      intros q' Hon' Hpeer.
      destruct (cell_is_Some b q' Hwf Hon') as [v Hv].
      destruct (decide (v = 0%Z)) as [->|Hv0].
      * destruct (Hplaced q') as (d' & _ & Hd' & Huniq).
        { rewrite cell_upd_ne; [done | apply Hpeer]. }
        rewrite Hd'. intros [= ->].
        by apply (Huniq p Hon (peer_sym _ _ Hpeer)).
      * rewrite (Hkeep q' v); [| |done].
        -- intros [= ->]. apply Hfree. exists q'.
           split; [done|]. split; [apply Hpeer | done].
        -- rewrite cell_upd_ne; [done | apply Hpeer].
    + apply Hplaced. by rewrite cell_upd_ne.
Qed.

Section try_digits.
Context (solve : Board → outcome (bool * Board)).
Context (solve_sound :
  ∀ b ok f, wf b → solve b = Ret (ok, f) → solve_post b ok f).

Lemma try_digits_sound r c ds b ok f :
  wf b → cell b (r, c) = Some 0%Z → Forall (λ d, 1 ≤ d ≤ 9)%Z ds →
  try_digits solve r c ds b = Ret (ok, f) → solve_post b ok f.
Proof.
  intros Hwf Hp Hds. revert ok f.
  induction Hds as [|d ds Hd _ IH]; intros ok f H; simpl in H.
  - by injection H as <- <-.
  - inv_bind H. destruct x as [|]; [|by apply IH].
    apply isSafe_true in Hx.
    inv_bind H. apply write_Ret in Hx0 as ->.
    inv_bind H. destruct x as [ok2 f2].
    apply solve_sound in Hx0; [|by apply wf_upd].
    destruct ok2.
    + injection H as <- <-. by eapply solve_post_place.
    + simpl in Hx0. subst f2.
      inv_bind H. apply write_Ret in Hx0 as ->.
      rewrite upd_upd, upd_id in H by done. by apply IH.
Qed.

Context (n : nat).
Context (solve_total :
  ∀ b, wf b → count_empty b ≤ n → ∃ ok f, solve b = Ret (ok, f)).

Lemma try_digits_total r c ds b :
  wf b → cell b (r, c) = Some 0%Z → count_empty b ≤ S n →
  Forall (λ d, 1 ≤ d ≤ 9)%Z ds →
  ∃ ok f, try_digits solve r c ds b = Ret (ok, f).
Proof.
  intros Hwf Hp Hn Hds.
  assert (r < SIZE) as Hr by apply (cell_on_board b (r, c) _ Hwf Hp).
  induction Hds as [|d ds Hd _ IH]; simpl; [by eauto|].
  destruct (isSafe_total b r c d Hwf Hr) as [safe ->]. simpl.
  destruct safe; [|done].
  rewrite write_wf by done. simpl.
  destruct (solve_total (upd b (r, c) d)) as (ok2 & f2 & Hsolve).
  { by apply wf_upd. }
  { pose proof (count_empty_upd b (r, c) d Hp). lia. }
  rewrite Hsolve. simpl. destruct ok2; [by eauto|].
  apply solve_sound in Hsolve; [|by apply wf_upd]. simpl in Hsolve.
  subst f2. rewrite write_wf by (by apply wf_upd || done). simpl.
  by rewrite upd_upd, upd_id.
Qed.
End try_digits.

Lemma digits_range : Forall (λ d, 1 ≤ d ≤ 9)%Z digits.
Proof. by_compute. Qed.

Lemma solveSudoku_unfold fuel b :
  solveSudoku fuel b =
    pos ← findEmpty b;
    match pos with
    | None => Ret (true, b)
    | Some (r, c) =>
        match fuel with
        | O => OutOfFuel
        | S fuel' => try_digits (solveSudoku fuel') r c digits b
        end
    end.
Proof. by destruct fuel. Qed.

Lemma solveSudoku_sound fuel b ok f :
  wf b → solveSudoku fuel b = Ret (ok, f) → solve_post b ok f.
Proof.
  revert b ok f. induction fuel as [|fuel IH]; intros b ok f Hwf H;
    rewrite solveSudoku_unfold in H; inv_bind H;
    apply findEmpty_Ret in Hx; destruct x as [[r c]|]; try done;
    try (injection H as <- <-; by apply solve_post_done).
  destruct Hx as [_ Hp].
  eapply try_digits_sound; [apply IH | done..| apply digits_range | done].
Qed.

Lemma solveSudoku_total fuel b :
  wf b → count_empty b ≤ fuel → ∃ ok f, solveSudoku fuel b = Ret (ok, f).
Proof.
  revert b. induction fuel as [|fuel IH]; intros b Hwf Hn;
    rewrite solveSudoku_unfold;
    destruct (findEmpty_total b Hwf) as [o Ho]; rewrite Ho;
    apply findEmpty_Ret in Ho; destruct o as [[r c]|];
    try (by eexists _, _); destruct Ho as [_ Hp].
  - pose proof (count_empty_upd b (r, c) 1 Hp). lia.
  - eapply try_digits_total;
      [intros; by eapply solveSudoku_sound | apply IH | done..
      | apply digits_range].
Qed.

(** ** The solver: the stated properties *)

(** C4.  On a 9x9 board with no empty cell, a completed valid Sudoku in
    particular, [solveSudoku] returns true at once, whatever the depth
    allowed, and the board is as it was. *)
Theorem solveSudoku_full_board fuel b :
  wf b → no_empty b → solveSudoku fuel b = Ret (true, b).
Proof.
  intros Hwf Hno. rewrite solveSudoku_unfold.
  destruct (findEmpty_total b Hwf) as [o Ho]. rewrite Ho.
  apply findEmpty_Ret in Ho. destruct o as [p|]; [|done].
  destruct Ho as [Hon Hp]. by destruct (Hno p).
Qed.

Lemma no_empty_alt b : no_empty b ↔ Forall (λ p, cell b p ≠ Some 0%Z) all_cells.
Proof.
  unfold no_empty. rewrite Forall_forall.
  by setoid_rewrite elem_of_all_cells.
Qed.

Global Instance no_empty_dec b : Decision (no_empty b).
Proof.
  refine (cast_if (decide (Forall (λ p, cell b p ≠ Some 0%Z) all_cells)));
    abstract (by rewrite no_empty_alt).
Defined.

Lemma solveSudoku_full_board_witness :
  wf solved_board ∧ no_empty solved_board ∧
  solveSudoku 0 solved_board = Ret (true, solved_board).
Proof.
  assert (wf solved_board) as Hwf by by_compute.
  assert (no_empty solved_board) as Hno by by_compute.
  split; [exact Hwf|]. split; [exact Hno|].
  apply (solveSudoku_full_board 0 solved_board Hwf Hno).
Defined.

(** C8.  On every 9x9 board (of digits 0-9 or of any numbers)
    [solveSudoku] returns, and it does so within a recursion depth of the
    number of empty cells of the board, which is at most 81. *)
Theorem solveSudoku_terminates b :
  wf b →
  count_empty b ≤ 81 ∧
  ∀ fuel, count_empty b ≤ fuel → ∃ ok f, solveSudoku fuel b = Ret (ok, f).
Proof.
  intros Hwf. split.
  - by apply count_empty_le.
  - intros fuel Hfuel. by apply solveSudoku_total.
Qed.

Lemma solveSudoku_terminates_witness :
  wf empty_board ∧
  count_empty empty_board ≤ 81 ∧
  ∀ fuel, count_empty empty_board ≤ fuel →
    ∃ ok f, solveSudoku fuel empty_board = Ret (ok, f).
Proof.
  assert (wf empty_board) as Hwf by by_compute.
  split; [exact Hwf|]. apply (solveSudoku_terminates empty_board Hwf).
Defined.

(** C9.  Whenever [solveSudoku] returns false on a 9x9 board, the board
    is left exactly as it was given: every placement of the failed
    search has been undone. *)
Theorem solveSudoku_false_restores fuel b f :
  wf b → solveSudoku fuel b = Ret (false, f) → f = b.
Proof. intros Hwf H. by apply (solveSudoku_sound fuel b false f). Qed.

Lemma solveSudoku_false_restores_witness :
  wf undone_board ∧ solveSudoku 2 undone_board = Ret (false, undone_board) ∧
  undone_board = undone_board.
Proof.
  assert (wf undone_board) as Hwf by by_compute.
  assert (solveSudoku 2 undone_board = Ret (false, undone_board)) as Hrun
    by (vm_compute; reflexivity).
  split; [exact Hwf|]. split; [exact Hrun|].
  apply (solveSudoku_false_restores 2 undone_board undone_board Hwf Hrun).
Defined.

(** C10.  Whenever [solveSudoku] returns true on a 9x9 board, every cell
    that held a non-zero digit holds the same digit afterwards: the clues
    are kept. *)
Theorem solveSudoku_true_keeps_clues fuel b f :
  wf b → solveSudoku fuel b = Ret (true, f) →
  ∀ p v, cell b p = Some v → v ≠ 0%Z → cell f p = Some v.
Proof.
  intros Hwf H. by destruct (solveSudoku_sound fuel b true f Hwf H) as (_ & ? & _).
Qed.

Lemma solveSudoku_true_keeps_clues_witness :
  wf (upd solved_board (0, 0) 0%Z) ∧
  solveSudoku 1 (upd solved_board (0, 0) 0%Z) = Ret (true, solved_board) ∧
  ∀ p v, cell (upd solved_board (0, 0) 0%Z) p = Some v → v ≠ 0%Z →
         cell solved_board p = Some v.
Proof.
  assert (wf (upd solved_board (0, 0) 0%Z)) as Hwf by by_compute.
  assert (solveSudoku 1 (upd solved_board (0, 0) 0%Z) = Ret (true, solved_board))
    as Hrun by (vm_compute; reflexivity).
  split; [exact Hwf|]. split; [exact Hrun|].
  apply (solveSudoku_true_keeps_clues 1 _ solved_board Hwf Hrun).
Defined.

(** ** A board with a digit twice in a row has no completion *)

(** Nine distinct digits are all the digits. *)
Lemma distinct_digits_all (l : list Z) d :
  length l = 9 → NoDup l → Forall (λ x, 1 ≤ x ≤ 9)%Z l →
  (1 ≤ d ≤ 9)%Z → d ∈ l.
Proof.
  intros Hlen Hnd Hrange Hd.
  assert (l ⊆+ digits) as Hsub.
  { apply NoDup_submseteq; [done|]. intros x Hx.
    rewrite Forall_forall in Hrange. apply Hrange in Hx.
    unfold digits. apply elem_of_seqZ. lia. }
  apply submseteq_length_Permutation in Hsub; [|by rewrite Hlen].
  rewrite Hsub. unfold digits. apply elem_of_seqZ. lia.
Qed.

(** An injective, total relation from one list into another needs the
    second to be at least as long. *)
Lemma pigeonhole {A B} (R : A → B → Prop) (la : list A) (lb : list B) :
  NoDup la →
  (∀ a, a ∈ la → ∃ y, y ∈ lb ∧ R a y) →
  (∀ a a' y, a ∈ la → a' ∈ la → R a y → R a' y → a = a') →
  length la ≤ length lb.
Proof.
  intros Hnd. revert lb.
  induction Hnd as [|a la Ha Hnd IH]; intros lb Htot Hinj; simpl; [lia|].
  destruct (Htot a) as (y & Hy & HR); [by left|].
  apply list_elem_of_split in Hy as (l1 & l2 & ->).
  rewrite length_app. simpl. rewrite Nat.add_succ_r, <- length_app.
  apply le_n_S, IH.
  - intros a' Ha'. destruct (Htot a') as (y' & Hy' & HR'); [by right|].
    exists y'. split; [|done].
    rewrite elem_of_app, elem_of_cons in Hy'. rewrite elem_of_app.
    destruct Hy' as [?|[->|?]]; [by left | | by right].
    destruct Ha. by rewrite (Hinj a a' y); [| left | right | |].
  - intros a1 a2 y' H1 H2. apply Hinj; by right.
Qed.

Lemma cell_empty_board q : on_board q → cell empty_board q = Some 0%Z.
Proof.
  intros Hq%elem_of_all_cells. revert q Hq. apply Forall_forall. by_compute.
Qed.

Lemma wf_two_in_row r c1 c2 d : wf (two_in_row r c1 c2 d).
Proof. unfold two_in_row. do 2 apply wf_upd. by_compute. Qed.

Lemma two_in_row_cell r c1 c2 d q :
  on_board (r, c1) → on_board (r, c2) → on_board q →
  cell (two_in_row r c1 c2 d) q =
    if decide (q = (r, c1) ∨ q = (r, c2)) then Some d else Some 0%Z.
Proof.
  intros H1 H2 Hq. unfold two_in_row. rewrite !cell_upd.
  rewrite !cell_empty_board by done.
  repeat case_decide; simpl; try done; intuition congruence.
Qed.

Lemma count_empty_two_in_row r c1 c2 d :
  on_board (r, c1) → on_board (r, c2) → c1 ≠ c2 → d ≠ 0%Z →
  count_empty (two_in_row r c1 c2 d) = 79.
Proof.
  intros H1 H2 Hne Hd. unfold two_in_row.
  assert (count_empty empty_board = 81) as H0 by (vm_compute; reflexivity).
  pose proof (count_empty_upd empty_board (r, c1) d) as Ha.
  pose proof (count_empty_upd (upd empty_board (r, c1) d) (r, c2) d) as Hb.
  rewrite cell_empty_board in Ha by done.
  rewrite cell_upd_ne, cell_empty_board in Hb by (done || congruence).
  specialize (Ha eq_refl Hd). specialize (Hb eq_refl Hd). lia.
Qed.

Lemma length_rows_but r :
  r < SIZE → length (filter (λ i, i ≠ r) (seq 0 SIZE)) = 8.
Proof.
  intros Hr. assert (r ∈ seq 0 SIZE) as Hin by (apply elem_of_seq; lia).
  clear Hr. revert r Hin. apply Forall_forall. by_compute.
Qed.

Lemma length_cols_but c1 c2 :
  c1 < SIZE → c2 < SIZE → c1 ≠ c2 →
  length (filter (λ j, j ≠ c1 ∧ j ≠ c2) (seq 0 SIZE)) = 7.
Proof.
  intros H1 H2.
  assert (c1 ∈ seq 0 SIZE) as Hin1 by (apply elem_of_seq; lia).
  assert (c2 ∈ seq 0 SIZE) as Hin2 by (apply elem_of_seq; lia).
  assert (Forall (λ a, Forall (λ b, a ≠ b →
            length (filter (λ j, j ≠ a ∧ j ≠ b) (seq 0 SIZE)) = 7)
            (seq 0 SIZE)) (seq 0 SIZE)) as Hall by by_compute.
  rewrite Forall_forall in Hall. specialize (Hall c1 Hin1).
  rewrite Forall_forall in Hall. exact (Hall c2 Hin2).
Qed.

Lemma two_in_row_no_solution r c1 c2 d f :
  on_board (r, c1) → on_board (r, c2) → c1 ≠ c2 → (1 ≤ d ≤ 9)%Z →
  ¬ solve_post (two_in_row r c1 c2 d) true f.
Proof.
  intros H1 H2 Hne Hd (Hwf & Hkeep & Hplaced).
  assert (cell f (r, c1) = Some d) as Hf1.
  { apply Hkeep; [|lia]. rewrite two_in_row_cell, decide_True; auto. }
  assert (cell f (r, c2) = Some d) as Hf2.
  { apply Hkeep; [|lia]. rewrite two_in_row_cell, decide_True; auto. }
  assert (∀ q, on_board q → q.1 ≠ r →
            ∃ e, (1 ≤ e ≤ 9)%Z ∧ cell f q = Some e ∧
                 ∀ q', on_board q' → peer q q' → cell f q' ≠ Some e) as Hother.
  { intros q Hq Hr. apply Hplaced. rewrite two_in_row_cell by done.
    rewrite decide_False; [done|]. by intros [->| ->]. }
  clear Hkeep Hplaced.
  (* the digit is in every other row *)
  assert (∀ i, i < SIZE → i ≠ r → ∃ j, j < SIZE ∧ cell f (i, j) = Some d) as Hrow.
  { intros i Hi Hir.
    destruct (lookup_lt_is_Some_2 f i) as [l Hl]; [destruct Hwf; lia|].
    assert (length l = 9) as Hlen.
    { destruct Hwf as [_ Hrows]. rewrite Forall_lookup in Hrows.
      by apply Hrows in Hl. }
    assert (∀ j, cell f (i, j) = l !! j) as Hcell.
    { intros j. unfold cell. simpl. by rewrite Hl. }
    assert (∀ j x, l !! j = Some x → on_board (i, j)) as Hon.
    { intros j x Hj%lookup_lt_Some. split; simpl; [done | unfold SIZE; lia]. }
    assert (d ∈ l) as [j Hj]%list_elem_of_lookup.
    { apply distinct_digits_all; [done| | |done].
      - apply NoDup_alt. intros j j' x Hj Hj'.
        destruct (decide (j = j')) as [|Hjj]; [done|]. exfalso.
        destruct (Hother (i, j)) as (e & _ & He & Huniq); [by eapply Hon|done|].
        rewrite Hcell, Hj in He. injection He as <-.
        apply (Huniq (i, j')); [by eapply Hon | | by rewrite Hcell].
        split; [congruence | by left].
      - apply Forall_lookup. intros j x Hj.
        destruct (Hother (i, j)) as (e & He & Hc & _); [by eapply Hon|done|].
        rewrite Hcell, Hj in Hc. by injection Hc as <-. }
    exists j. split; [|by rewrite Hcell].
    apply lookup_lt_Some in Hj. unfold SIZE. lia. }
  (* eight rows, seven columns left for it *)
  pose proof (pigeonhole (λ i j, cell f (i, j) = Some d)
    (filter (λ i, i ≠ r) (seq 0 SIZE))
    (filter (λ j, j ≠ c1 ∧ j ≠ c2) (seq 0 SIZE))) as Hph.
  rewrite length_rows_but, length_cols_but in Hph by (done || apply H1 || apply H2).
  enough (8 ≤ 7) by lia. apply Hph; clear Hph.
  - apply NoDup_filter, NoDup_seq.
  - intros i [Hir [_ Hi]%elem_of_seq]%list_elem_of_filter.
    destruct (Hrow i Hi Hir) as (j & Hj & Hd').
    exists j. split; [|done].
    apply list_elem_of_filter. split; [|apply elem_of_seq; lia].
    destruct (Hother (i, j)) as (e & _ & He & Huniq); [done..|].
    rewrite Hd' in He. injection He as <-.
    split; intros ->.
    + apply (Huniq (r, c1)); [done | | done].
      split; [congruence | by right; left].
    + apply (Huniq (r, c2)); [done | | done].
      split; [congruence | by right; left].
  - intros i i' j [Hir [_ Hi]%elem_of_seq]%list_elem_of_filter
      [Hir' [_ Hi']%elem_of_seq]%list_elem_of_filter Hd1 Hd2.
    destruct (decide (i = i')) as [|Hii]; [done|]. exfalso.
    assert (j < SIZE) as Hj.
    { by apply (cell_on_board f (i, j) d). }
    destruct (Hother (i, j)) as (e & _ & He & Huniq); [done..|].
    rewrite Hd1 in He. injection He as <-.
    apply (Huniq (i', j)); [done | | done].
    split; [congruence | by right; left].
Qed.

(** C5.  On a board whose only digits are one digit 1-9 in two cells of
    one row, [solveSudoku] returns false (within the depth of its 79
    empty cells), leaving the board as it was. *)
Theorem solveSudoku_two_in_row r c1 c2 d fuel :
  r < SIZE → c1 < SIZE → c2 < SIZE → c1 ≠ c2 → (1 ≤ d ≤ 9)%Z → 79 ≤ fuel →
  solveSudoku fuel (two_in_row r c1 c2 d) = Ret (false, two_in_row r c1 c2 d).
Proof.
  intros Hr Hc1 Hc2 Hne Hd Hfuel.
  assert (on_board (r, c1)) as H1 by done.
  assert (on_board (r, c2)) as H2 by done.
  pose proof (wf_two_in_row r c1 c2 d) as Hwf.
  destruct (solveSudoku_total fuel (two_in_row r c1 c2 d)) as (ok & f & Hrun).
  { done. }
  { rewrite count_empty_two_in_row by (done || lia). done. }
  rewrite Hrun. apply solveSudoku_sound in Hrun; [|done].
  destruct ok.
  - by destruct (two_in_row_no_solution r c1 c2 d f).
  - simpl in Hrun. by subst f.
Qed.

Lemma solveSudoku_two_in_row_witness :
  0 < SIZE ∧ 0 < SIZE ∧ 1 < SIZE ∧ 0 ≠ 1 ∧ (1 ≤ 1 ≤ 9)%Z ∧ 79 ≤ 79 ∧
  solveSudoku 79 (two_in_row 0 0 1 1) = Ret (false, two_in_row 0 0 1 1).
Proof.
  assert (0 < SIZE) as H0 by (unfold SIZE; lia).
  assert (1 < SIZE) as H1 by (unfold SIZE; lia).
  assert (0 ≠ 1) as Hne by lia.
  assert (1 ≤ 1 ≤ 9)%Z as Hd by lia.
  assert (79 ≤ 79) as Hfuel by lia.
  split; [exact H0|]. split; [exact H0|]. split; [exact H1|].
  split; [exact Hne|]. split; [exact Hd|]. split; [exact Hfuel|].
  apply (solveSudoku_two_in_row 0 0 1 1 79 H0 H0 H1 Hne Hd Hfuel).
Defined.

(** ** The validator *)

Global Instance conflict_dec b p : Decision (conflict b p).
Proof.
  refine (match cell b p as o return cell b p = o → _ with
          | Some v => λ Hv, cast_if (decide (v ≠ 0%Z ∧ occurs_elsewhere b v p))
          | None => λ Hv, right _
          end eq_refl).
  - abstract (exists v; tauto).
  - abstract (intros (v' & Hv' & ? & ?); rewrite Hv in Hv'; simplify_eq; tauto).
  - abstract (intros (v' & Hv' & _); congruence).
Defined.

(** With the cell blanked, the check at the cell sees its peers only. *)
Lemma occurs_blanked b p v :
  is_Some (cell b p) → v ≠ 0%Z →
  occurs (upd b p 0%Z) v p ↔ occurs_elsewhere b v p.
Proof.
  intros Hp Hv. split.
  - intros (q & Hq & Hunit & Hcell).
    destruct (decide (p = q)) as [<-|Hne].
    + rewrite cell_upd_eq in Hcell by done. congruence.
    + rewrite cell_upd_ne in Hcell by done. by exists q.
  - intros (q & Hq & [Hne Hunit] & Hcell). exists q.
    by rewrite cell_upd_ne.
Qed.

Lemma validate_cell_spec b valid marked p :
  wf b → on_board p →
  validate_cell (b, valid, marked) p =
    Ret (if decide (conflict b p) then (b, false, marked ++ [p])
         else (b, valid, marked)).
Proof.
  intros Hwf Hp. destruct p as [r c]. unfold validate_cell.
  assert (r < SIZE) as Hr by apply Hp.
  rewrite read_wf by done.
  destruct (cell_is_Some b (r, c) Hwf Hp) as [v Hv]. rewrite Hv. simpl.
  case_bool_decide as Hv0.
  { subst v. rewrite decide_False; [done|].
    intros (v & Hv' & ? & _). congruence. }
  rewrite write_wf by done. simpl.
  pose proof (wf_upd b (r, c) 0%Z Hwf) as Hwf1.
  destruct (isSafe_total (upd b (r, c) 0%Z) r c v Hwf1 Hr) as [ok Hok].
  rewrite Hok. simpl. rewrite write_wf by done. simpl.
  rewrite upd_upd, upd_id by done.
  destruct ok.
  - apply isSafe_true in Hok. rewrite occurs_blanked in Hok by (done || eauto).
    rewrite decide_False; [done|].
    intros (v' & Hv' & _ & ?). congruence.
  - apply isSafe_false in Hok; [|done].
    rewrite occurs_blanked in Hok by (done || eauto).
    rewrite decide_True; [done|]. by exists v.
Qed.

Lemma validate_loop_spec b cells valid marked :
  wf b → Forall on_board cells →
  validate_loop (b, valid, marked) cells =
    Ret (b, valid && bool_decide (Forall (λ p, ¬ conflict b p) cells),
         marked ++ filter (conflict b) cells).
Proof.
  intros Hwf Hcells. revert valid marked.
  induction Hcells as [|p cells Hp _ IH]; intros valid marked;
    cbn [validate_loop].
  - by rewrite andb_true_r, app_nil_r.
  - rewrite validate_cell_spec by done. rewrite filter_cons.
    destruct (decide (conflict b p)) as [Hc|Hc]; rewrite bind_Ret_l, IH.
    + rewrite <- app_assoc. simpl. do 3 f_equal.
      rewrite bool_decide_eq_false_2, andb_false_r; [done|].
      intros Hall. by inversion Hall.
    + do 4 f_equal. apply bool_decide_ext. split.
      * by constructor.
      * intros Hall. by inversion Hall.
Qed.

Lemma validateBoard_spec b :
  wf b →
  validateBoard b =
    Ret (bool_decide (Forall (λ p, ¬ conflict b p) all_cells),
         filter (conflict b) all_cells, b).
Proof.
  intros Hwf. unfold validateBoard. rewrite validate_loop_spec; [done..|].
  apply Forall_forall. by intros p ?%elem_of_all_cells.
Qed.

(** C7.  On a 9x9 board [validateBoard] returns and leaves the board as
    it found it, every blanked cell being restored; so a second call
    right after the first gives the same result. *)
Theorem validateBoard_no_effect b :
  wf b →
  ∃ res, validateBoard b = Ret (res, b) ∧
         validate_twice b = Ret (res, res, b).
Proof.
  intros Hwf. eexists. unfold validate_twice.
  rewrite !validateBoard_spec by done. simpl.
  rewrite !validateBoard_spec by done. done.
Qed.

Lemma validateBoard_no_effect_witness :
  wf stuck_board ∧
  ∃ res, validateBoard stuck_board = Ret (res, stuck_board) ∧
         validate_twice stuck_board = Ret (res, res, stuck_board).
Proof.
  assert (wf stuck_board) as Hwf by by_compute.
  split; [exact Hwf|]. apply (validateBoard_no_effect stuck_board Hwf).
Defined.

Lemma conflict_two_in_row r c1 c2 d p :
  on_board (r, c1) → on_board (r, c2) → c1 ≠ c2 → d ≠ 0%Z → on_board p →
  conflict (two_in_row r c1 c2 d) p ↔ p = (r, c1) ∨ p = (r, c2).
Proof.
  intros H1 H2 Hne Hd Hp. split.
  - intros (v & Hv & Hv0 & _). rewrite two_in_row_cell in Hv by done.
    case_decide; [done | congruence].
  - intros Heq. exists d. split; [|split; [done|]].
    { rewrite two_in_row_cell by done. by rewrite decide_True. }
    destruct Heq as [-> | ->]; [exists (r, c2) | exists (r, c1)];
      (split; [done|]); rewrite two_in_row_cell, decide_True by auto;
      (split; [|done]); (split; [congruence | by left]).
Qed.

(** C6.  On a board whose only digits are one non-zero digit in two
    cells of one row, [validateBoard] returns false and marks exactly
    those two cells, each once. *)
Theorem validateBoard_two_in_row r c1 c2 d :
  r < SIZE → c1 < SIZE → c2 < SIZE → c1 ≠ c2 → d ≠ 0%Z →
  ∃ marked,
    validateBoard (two_in_row r c1 c2 d) =
      Ret (false, marked, two_in_row r c1 c2 d) ∧
    NoDup marked ∧
    ∀ p, p ∈ marked ↔ p = (r, c1) ∨ p = (r, c2).
Proof.
  intros Hr Hc1 Hc2 Hne Hd.
  assert (on_board (r, c1)) as H1 by done.
  assert (on_board (r, c2)) as H2 by done.
  rewrite validateBoard_spec by apply wf_two_in_row.
  eexists. split.
  - do 3 f_equal. apply bool_decide_eq_false_2. rewrite Forall_forall.
    intros Hall. apply (Hall (r, c1)); [by apply elem_of_all_cells|].
    apply conflict_two_in_row; auto.
  - split; [apply NoDup_filter; by_compute|].
    intros p. rewrite list_elem_of_filter, elem_of_all_cells. split.
    + intros [Hc Hp]. by apply conflict_two_in_row in Hc.
    + intros Hp. assert (on_board p) by (by destruct Hp as [-> | ->]).
      split; [|done]. by apply conflict_two_in_row.
Qed.

Lemma validateBoard_two_in_row_witness :
  2 < SIZE ∧ 3 < SIZE ∧ 7 < SIZE ∧ 3 ≠ 7 ∧ 4%Z ≠ 0%Z ∧
  ∃ marked,
    validateBoard (two_in_row 2 3 7 4) = Ret (false, marked, two_in_row 2 3 7 4) ∧
    NoDup marked ∧
    ∀ p, p ∈ marked ↔ p = (2, 3) ∨ p = (2, 7).
Proof.
  assert (2 < SIZE) as Hr by (unfold SIZE; lia).
  assert (3 < SIZE) as Hc1 by (unfold SIZE; lia).
  assert (7 < SIZE) as Hc2 by (unfold SIZE; lia).
  assert (3 ≠ 7) as Hne by lia.
  assert (4%Z ≠ 0%Z) as Hd by lia.
  split; [exact Hr|]. split; [exact Hc1|]. split; [exact Hc2|].
  split; [exact Hne|]. split; [exact Hd|].
  apply (validateBoard_two_in_row 2 3 7 4 Hr Hc1 Hc2 Hne Hd).
Defined.

(** ** The working board stays consistent *)

Global Instance differs_dec b p q :
  Decision (differs b p q).
Proof. unfold differs. destruct (cell b p); apply _. Defined.

Lemma consistent_alt b :
  consistent b ↔
  Forall (λ p, Forall (λ q, peer p q → differs b p q) all_cells) all_cells.
Proof.
  unfold consistent, differs. rewrite Forall_forall.
  setoid_rewrite Forall_forall. setoid_rewrite elem_of_all_cells. split.
  - intros H p Hp q Hq Hpeer. destruct (cell b p) as [v|] eqn:Hv; [|done].
    intros Hv0. by apply (H p q Hp Hq Hpeer v).
  - intros H p q Hp Hq Hpeer v Hv Hv0. specialize (H p Hp q Hq Hpeer).
    rewrite Hv in H. by apply H.
Qed.

Global Instance consistent_dec b : Decision (consistent b).
Proof.
  refine (cast_if (decide
    (Forall (λ p, Forall (λ q, peer p q → differs b p q) all_cells) all_cells)));
  abstract (by rewrite consistent_alt).
Defined.

Lemma consistent_clear b p : consistent b → consistent (upd b p 0%Z).
Proof.
  intros Hc x y Hx Hy Hpeer v Hv Hv0 Hyv. rewrite cell_upd in Hv, Hyv.
  destruct (decide (p = x)) as [<-|].
  { destruct (cell b p); simplify_eq/=. }
  destruct (decide (p = y)) as [<-|].
  { destruct (cell b p); simplify_eq/=. }
  by apply (Hc x y Hx Hy Hpeer v).
Qed.

Lemma consistent_place b p d :
  consistent b → ¬ occurs b d p → consistent (upd b p d).
Proof.
  intros Hc Hfree x y Hx Hy Hpeer v Hv Hv0 Hyv. rewrite cell_upd in Hv, Hyv.
  destruct (decide (p = x)) as [<-|Hpx]; destruct (decide (p = y)) as [<-|Hpy].
  - by destruct Hpeer.
  - destruct (cell b p); simplify_eq/=. apply Hfree. exists y.
    split; [done|]. split; [apply Hpeer | done].
  - destruct (cell b p); simplify_eq/=. apply Hfree. exists x.
    split; [done|]. split; [apply same_unit_sym, Hpeer | done].
  - by apply (Hc x y Hx Hy Hpeer v).
Qed.

Lemma Forall_snoc {A} (P : A → Prop) l x : Forall P l → P x → Forall P (l ++ [x]).
Proof. intros. apply Forall_app. split; [done | by constructor]. Qed.

Section try_digits_log.
Context (solve : Board → list Board → outcome (bool * Board * list Board)).
Context (solve_inv : ∀ b log ok f log',
  wf b → consistent b → Forall consistent log →
  solve b log = Ret (ok, f, log') →
  wf f ∧ consistent f ∧ Forall consistent log').

Lemma try_digits_log_inv r c ds b log ok f log' :
  wf b → consistent b → Forall consistent log →
  try_digits_log solve r c ds b log = Ret (ok, f, log') →
  wf f ∧ consistent f ∧ Forall consistent log'.
Proof.
  revert b log. induction ds as [|d ds IH]; intros b log Hwf Hc Hlog H;
    simpl in H.
  - by injection H as <- <- <-.
  - inv_bind H. destruct x as [|]; [|by eapply IH].
    apply isSafe_true in Hx.
    inv_bind H. apply write_Ret in Hx0 as ->.
    inv_bind H. destruct x as [[ok2 f2] log2].
    apply solve_inv in Hx0 as (Hwf2 & Hc2 & Hlog2);
      [|by apply wf_upd|by apply consistent_place
       |by apply Forall_snoc, consistent_place].
    destruct ok2.
    + by injection H as <- <- <-.
    + inv_bind H. apply write_Ret in Hx0 as ->.
      eapply IH; [| | |done].
      * by apply wf_upd.
      * by apply consistent_clear.
      * by apply Forall_snoc, consistent_clear.
Qed.

Context (solve' : Board → outcome (bool * Board)).
Context (solve_forget : ∀ b log, forget (solve b log) = solve' b).

Lemma try_digits_log_forget r c ds b log :
  forget (try_digits_log solve r c ds b log) = try_digits solve' r c ds b.
Proof.
  revert b log. induction ds as [|d ds IH]; intros b log; simpl; [done|].
  destruct (isSafe b r c d) as [[|]| |]; simpl; [|done..].
  destruct (write b r c d) as [b1| |]; simpl; [|done..].
  rewrite <- (solve_forget b1 (log ++ [b1])).
  destruct (solve b1 (log ++ [b1])) as [[[[|] f2] log2]| |]; simpl; [done| |done..].
  destruct (write f2 r c 0) as [b3| |]; simpl; [|done..].
  apply IH.
Qed.
End try_digits_log.

Lemma solveSudoku_log_unfold fuel b log :
  solveSudoku_log fuel b log =
    pos ← findEmpty b;
    match pos with
    | None => Ret (true, b, log)
    | Some (r, c) =>
        match fuel with
        | O => OutOfFuel
        | S fuel' => try_digits_log (solveSudoku_log fuel') r c digits b log
        end
    end.
Proof. by destruct fuel. Qed.

Lemma solveSudoku_log_inv fuel b log ok f log' :
  wf b → consistent b → Forall consistent log →
  solveSudoku_log fuel b log = Ret (ok, f, log') →
  wf f ∧ consistent f ∧ Forall consistent log'.
Proof.
  revert b log ok f log'.
  induction fuel as [|fuel IH]; intros b log ok f log' Hwf Hc Hlog H;
    rewrite solveSudoku_log_unfold in H; inv_bind H;
    destruct x as [[r c]|]; try done; try by injection H as <- <- <-.
  by eapply try_digits_log_inv.
Qed.

Lemma solveSudoku_log_forget fuel b log :
  forget (solveSudoku_log fuel b log) = solveSudoku fuel b.
Proof.
  revert b log. induction fuel as [|fuel IH]; intros b log;
    rewrite solveSudoku_log_unfold, solveSudoku_unfold;
    destruct (findEmpty b) as [[[r c]|]| |]; try done;
    rewrite !bind_Ret_l.
  by apply try_digits_log_forget.
Qed.

(** C2.  From a 9x9 board whose placed digits are nowhere repeated in a
    row, column or box, [solveSudoku] returns, and every board its
    working board goes through, after each placement and after each undo,
    has that same property. *)
Theorem solveSudoku_keeps_consistent fuel b :
  wf b → consistent b → count_empty b ≤ fuel →
  ∃ ok f log,
    solveSudoku_log fuel b [] = Ret (ok, f, log) ∧
    solveSudoku fuel b = Ret (ok, f) ∧
    consistent f ∧ Forall consistent log.
Proof.
  intros Hwf Hc Hfuel.
  destruct (solveSudoku_total fuel b Hwf Hfuel) as (ok & f & Hrun).
  pose proof (solveSudoku_log_forget fuel b []) as Hforget.
  rewrite Hrun in Hforget.
  destruct (solveSudoku_log fuel b []) as [[[ok' f'] log]| |] eqn:Hlog;
    simplify_eq/=.
  exists ok, f, log. split; [done|]. split; [done|].
  by destruct (solveSudoku_log_inv fuel b [] ok f log Hwf Hc) as (_ & ? & ?).
Qed.

(** A run with one wrong placement, undone, before the right ones. *)
Example solveSudoku_log_dented :
  solveSudoku_log 3 dented_board [] =
    Ret (true, solved_board,
         [upd dented_board (0, 0) 4%Z;
          dented_board;
          upd dented_board (0, 0) 5%Z;
          upd (upd dented_board (0, 0) 5%Z) (0, 2) 4%Z;
          solved_board]).
Proof. vm_compute. reflexivity. Qed.

(** The failed run on [undone_board] places a 5 in the first cell and
    undoes it. *)
Example solveSudoku_log_undone :
  solveSudoku_log 2 undone_board [] =
    Ret (false, undone_board, [upd undone_board (0, 0) 5%Z; undone_board]).
Proof. vm_compute. reflexivity. Qed.

Lemma solveSudoku_keeps_consistent_witness :
  wf dented_board ∧ consistent dented_board ∧ count_empty dented_board ≤ 3 ∧
  ∃ ok f log,
    solveSudoku_log 3 dented_board [] = Ret (ok, f, log) ∧
    solveSudoku 3 dented_board = Ret (ok, f) ∧
    consistent f ∧ Forall consistent log.
Proof.
  assert (wf dented_board) as Hwf by by_compute.
  assert (consistent dented_board) as Hc by by_compute.
  assert (count_empty dented_board ≤ 3) as Hfuel by by_compute.
  split; [exact Hwf|]. split; [exact Hc|]. split; [exact Hfuel|].
  apply (solveSudoku_keeps_consistent 3 dented_board Hwf Hc Hfuel).
Defined.

(** ** More depth allowed changes nothing *)

Section try_digits_mono.
Context (solve1 solve2 : Board → outcome (bool * Board)).
Context (solve_mono : ∀ b x, solve1 b = Ret x → solve2 b = Ret x).

Lemma try_digits_mono r c ds b x :
  try_digits solve1 r c ds b = Ret x → try_digits solve2 r c ds b = Ret x.
Proof.
  revert b. induction ds as [|d ds IH]; intros b H; simpl in *; [done|].
  destruct (isSafe b r c d) as [[|]| |]; simpl in *; try done; [|by apply IH].
  destruct (write b r c d) as [b1| |]; simpl in *; try done.
  destruct (solve1 b1) as [[ok2 f2]| |] eqn:Hs; simpl in *; try done.
  rewrite (solve_mono _ _ Hs). simpl. destruct ok2; [done|].
  destruct (write f2 r c 0) as [b3| |]; simpl in *; try done. by apply IH.
Qed.
End try_digits_mono.

Lemma solveSudoku_mono n m b x :
  n ≤ m → solveSudoku n b = Ret x → solveSudoku m b = Ret x.
Proof.
  revert m b x. induction n as [|n IH]; intros m b x Hnm;
    rewrite !solveSudoku_unfold;
    destruct (findEmpty b) as [[[r c]|]| |]; try done; rewrite !bind_Ret_l;
    try done.
  destruct m as [|m]; [lia|]. apply try_digits_mono.
  intros b' x'. apply IH. lia.
Qed.

(** ** The first preset puzzle *)

(** C3.  The first preset string parses to a 9x9 board with 51 empty
    cells, on which [solveSudoku] returns true (within that depth, and
    with any deeper stack allowed), leaving a board whose every row,
    column and 3x3 box is a permutation of the digits 1-9. *)
Theorem solveSudoku_easy_puzzle fuel :
  51 ≤ fuel →
  ∃ b,
    loadPuzzle PUZZLE_EASY = Ret (Some b) ∧ wf b ∧ count_empty b = 51 ∧
    solveSudoku fuel b = Ret (true, solved_board) ∧
    Forall (λ k,
      vals solved_board (row_cells k) ≡ₚ Some <$> digits ∧
      vals solved_board (col_cells k) ≡ₚ Some <$> digits ∧
      vals solved_board (box_cells (k / 3 * 3) (k mod 3 * 3)) ≡ₚ Some <$> digits)
      (seq 0 SIZE).
Proof.
  intros Hfuel.
  destruct (loadPuzzle PUZZLE_EASY) as [[b|]| |] eqn:Hload;
    try (vm_compute in Hload; discriminate).
  exists b. split; [done|].
  vm_compute in Hload. injection Hload as <-.
  split; [by_compute|]. split; [vm_compute; reflexivity|]. split.
  - apply (solveSudoku_mono 51); [done|]. vm_compute. reflexivity.
  - by_compute.
Qed.

Lemma solveSudoku_easy_puzzle_witness :
  51 ≤ 51 ∧
  ∃ b,
    loadPuzzle PUZZLE_EASY = Ret (Some b) ∧ wf b ∧ count_empty b = 51 ∧
    solveSudoku 51 b = Ret (true, solved_board) ∧
    Forall (λ k,
      vals solved_board (row_cells k) ≡ₚ Some <$> digits ∧
      vals solved_board (col_cells k) ≡ₚ Some <$> digits ∧
      vals solved_board (box_cells (k / 3 * 3) (k mod 3 * 3)) ≡ₚ Some <$> digits)
      (seq 0 SIZE).
Proof.
  assert (51 ≤ 51) as Hfuel by lia.
  split; [exact Hfuel|]. apply (solveSudoku_easy_puzzle 51 Hfuel).
Defined.

(** * Further properties of the code *)

(** ** The order of the search for an empty cell *)

Global Instance before_dec q p : Decision (before q p).
Proof. unfold before. apply _. Defined.

Lemma all_cells_sorted : StronglySorted before all_cells.
Proof. by_compute. Qed.

Lemma before_asym q p : before q p → ¬ before p q.
Proof. unfold before. lia. Qed.

Lemma before_irrefl p : ¬ before p p.
Proof. unfold before. lia. Qed.

Lemma scan_first b val cells p :
  scan b val cells = Ret (Some p) →
  ∃ l1 l2, cells = l1 ++ p :: l2 ∧ ∀ q, q ∈ l1 → cell b q ≠ Some val.
Proof.
  induction cells as [|[i j] rest IH]; simpl; [done|].
  intros H. inv_bind H. apply read_Ret in Hx. subst x.
  case_bool_decide as Hv.
  - injection H as <-. exists [], rest. split; [done|].
    intros q Hq. by apply elem_of_nil in Hq.
  - destruct (IH H) as (l1 & l2 & -> & Hl1).
    exists ((i, j) :: l1), l2. split; [done|].
    intros q [->|Hq]%elem_of_cons; [done | by apply Hl1].
Qed.

Lemma all_cells_before l1 l2 p q :
  all_cells = l1 ++ p :: l2 → on_board q → before q p → q ∈ l1.
Proof.
  intros Heq Hq%elem_of_all_cells Hbefore.
  pose proof all_cells_sorted as Hsorted. rewrite Heq in Hq, Hsorted.
  apply elem_of_app in Hq as [?|[->|Hq]%elem_of_cons]; [done| |].
  - by destruct (before_irrefl p).
  - apply StronglySorted_app_1_r, StronglySorted_cons in Hsorted as [Hall _].
    rewrite Forall_forall in Hall.
    destruct (before_asym q p Hbefore (Hall q Hq)).
Qed.

(** X1.  On a 9x9 board [findEmpty] returns null exactly when no cell is
    empty, and otherwise the first empty cell in row-major order: every
    cell before it holds a digit. *)
Theorem findEmpty_spec b :
  wf b →
  ∃ o, findEmpty b = Ret o ∧
    match o with
    | None => no_empty b
    | Some p =>
        on_board p ∧ cell b p = Some 0%Z ∧
        ∀ q, on_board q → before q p → cell b q ≠ Some 0%Z
    end.
Proof.
  intros Hwf. destruct (findEmpty_total b Hwf) as [o Ho]. exists o.
  split; [done|]. destruct o as [p|]; [|by apply findEmpty_Ret in Ho].
  destruct (findEmpty_Ret b _ Ho) as [Hon Hp]. split; [done|]. split; [done|].
  apply scan_first in Ho as (l1 & l2 & Heq & Hl1).
  intros q Hq Hbefore. apply Hl1. by eapply all_cells_before.
Qed.

Lemma findEmpty_spec_witness :
  wf dented_board ∧
  ∃ o, findEmpty dented_board = Ret o ∧
    match o with
    | None => no_empty dented_board
    | Some p =>
        on_board p ∧ cell dented_board p = Some 0%Z ∧
        ∀ q, on_board q → before q p → cell dented_board q ≠ Some 0%Z
    end.
Proof.
  assert (wf dented_board) as Hwf by by_compute.
  split; [exact Hwf|]. apply (findEmpty_spec dented_board Hwf).
Defined.

(** ** What the validator reports *)

Lemma no_conflict_consistent b :
  Forall (λ p, ¬ conflict b p) all_cells ↔ consistent b.
Proof.
  rewrite Forall_forall. setoid_rewrite elem_of_all_cells. split.
  - intros H p q Hp Hq Hpeer v Hv Hv0 Hqv. apply (H p Hp).
    exists v. split; [done|]. split; [done|]. by exists q.
  - intros Hc p Hp (v & Hv & Hv0 & q & Hq & Hpeer & Hqv).
    by apply (Hc p q Hp Hq Hpeer v).
Qed.

Lemma conflict_peer b p :
  on_board p → conflict b p →
  ∃ q, on_board q ∧ peer p q ∧ cell b q = cell b p ∧ conflict b q.
Proof.
  intros Hp (v & Hv & Hv0 & q & Hq & Hpeer & Hqv).
  exists q. split; [done|]. split; [done|]. split; [congruence|].
  exists v. split; [done|]. split; [done|]. exists p.
  split; [done|]. split; [by apply peer_sym | done].
Qed.

Lemma filter_nil_Forall {A} (P : A → Prop) `{∀ x, Decision (P x)} (l : list A) :
  filter P l = [] ↔ Forall (λ x, ¬ P x) l.
Proof.
  induction l as [|x l IH]; [by split|].
  rewrite filter_cons. destruct (decide (P x)).
  - split; [done|]. by inversion 1.
  - rewrite IH. split; [by constructor | by inversion 1].
Qed.

Lemma StronglySorted_filter_list {A} (R : relation A) (P : A → Prop)
    `{∀ x, Decision (P x)} (l : list A) :
  StronglySorted R l → StronglySorted R (filter P l).
Proof.
  induction 1 as [|x l Hl IH Hx]; [constructor|].
  rewrite filter_cons. destruct (decide (P x)); [|done].
  constructor; [done|]. rewrite Forall_forall in Hx |- *.
  intros y [_ Hy]%list_elem_of_filter. by apply Hx.
Qed.

(** X2.  On a 9x9 board [validateBoard] returns true exactly when no
    digit is repeated in a row, column or box; it marks exactly the cells
    whose digit is held by another cell of their row, column or box, in
    row-major order, and none when it returns true. *)
Theorem validateBoard_consistent b :
  wf b →
  ∃ valid marked,
    validateBoard b = Ret (valid, marked, b) ∧
    (valid = true ↔ consistent b) ∧
    (valid = true ↔ marked = []) ∧
    (∀ p, p ∈ marked ↔ on_board p ∧ conflict b p) ∧
    StronglySorted before marked.
Proof.
  intros Hwf. rewrite validateBoard_spec by done. eexists _, _.
  split; [done|]. split; [|split; [|split]].
  - by rewrite bool_decide_eq_true, no_conflict_consistent.
  - by rewrite bool_decide_eq_true, filter_nil_Forall.
  - intros p. rewrite list_elem_of_filter, elem_of_all_cells. tauto.
  - apply StronglySorted_filter_list, all_cells_sorted.
Qed.

Lemma validateBoard_consistent_witness :
  wf stuck_board ∧
  ∃ valid marked,
    validateBoard stuck_board = Ret (valid, marked, stuck_board) ∧
    (valid = true ↔ consistent stuck_board) ∧
    (valid = true ↔ marked = []) ∧
    (∀ p, p ∈ marked ↔ on_board p ∧ conflict stuck_board p) ∧
    StronglySorted before marked.
Proof.
  assert (wf stuck_board) as Hwf by by_compute.
  split; [exact Hwf|]. apply (validateBoard_consistent stuck_board Hwf).
Defined.

(** X3.  The cells [validateBoard] marks come at least in pairs: a marked
    cell has a marked cell in its row, column or box with the same
    digit. *)
Theorem validateBoard_marks_both b valid marked b' p :
  wf b → validateBoard b = Ret (valid, marked, b') → p ∈ marked →
  ∃ q, q ∈ marked ∧ peer p q ∧ cell b q = cell b p.
Proof.
  intros Hwf Hrun Hp. rewrite validateBoard_spec in Hrun by done.
  injection Hrun as <- <- <-.
  apply list_elem_of_filter in Hp as [Hc Hp%elem_of_all_cells].
  destruct (conflict_peer b p Hp Hc) as (q & Hq & Hpeer & Heq & Hcq).
  exists q. split; [|done].
  apply list_elem_of_filter. split; [done | by apply elem_of_all_cells].
Qed.

Lemma validateBoard_marks_both_witness :
  wf stuck_board ∧
  validateBoard stuck_board = Ret (false, [(0, 1); (3, 1)], stuck_board) ∧
  (0, 1) ∈ [(0, 1); (3, 1)] ∧
  ∃ q, q ∈ [(0, 1); (3, 1)] ∧ peer (0, 1) q ∧
       cell stuck_board q = cell stuck_board (0, 1).
Proof.
  assert (wf stuck_board) as Hwf by by_compute.
  assert (validateBoard stuck_board = Ret (false, [(0, 1); (3, 1)], stuck_board))
    as Hrun by (vm_compute; reflexivity).
  assert ((0, 1) ∈ [(0, 1); (3, 1)]) as Hin by by_compute.
  split; [exact Hwf|]. split; [exact Hrun|]. split; [exact Hin|].
  apply (validateBoard_marks_both stuck_board _ _ _ (0, 1) Hwf Hrun Hin).
Defined.

(** ** What the constraint check means for a placement *)

(** X4.  On a consistent 9x9 board, at an empty cell and for a non-zero
    digit, [isSafe] returns true exactly when the board with the digit
    placed there is still consistent. *)
Theorem isSafe_iff_consistent b r c d :
  wf b → consistent b → cell b (r, c) = Some 0%Z → d ≠ 0%Z →
  ∃ ok, isSafe b r c d = Ret ok ∧
        (ok = true ↔ consistent (upd b (r, c) d)).
Proof.
  intros Hwf Hc Hp Hd.
  assert (on_board (r, c)) as Hon by exact (cell_on_board b _ _ Hwf Hp).
  destruct (isSafe_total b r c d Hwf) as [ok Hok]; [apply Hon|].
  exists ok. split; [done|]. destruct ok.
  - split; [intros _|done]. apply consistent_place; [done|].
    by apply isSafe_true.
  - split; [done|]. intros Hc'. exfalso.
    apply isSafe_false in Hok as (q & Hq & Hunit & Hqd); [|done].
    assert ((r, c) ≠ q) as Hne by (intros <-; congruence).
    apply (Hc' (r, c) q Hon Hq (conj Hne Hunit) d); [|done|].
    + apply cell_upd_eq. by rewrite Hp.
    + by rewrite cell_upd_ne.
Qed.

Lemma isSafe_iff_consistent_witness :
  wf dented_board ∧ consistent dented_board ∧
  cell dented_board (0, 0) = Some 0%Z ∧ 4%Z ≠ 0%Z ∧
  ∃ ok, isSafe dented_board 0 0 4 = Ret ok ∧
        (ok = true ↔ consistent (upd dented_board (0, 0) 4)).
Proof.
  assert (wf dented_board) as Hwf by by_compute.
  assert (consistent dented_board) as Hc by by_compute.
  assert (cell dented_board (0, 0) = Some 0%Z) as Hp by reflexivity.
  assert (4%Z ≠ 0%Z) as Hd by lia.
  split; [exact Hwf|]. split; [exact Hc|]. split; [exact Hp|].
  split; [exact Hd|].
  apply (isSafe_iff_consistent dented_board 0 0 4 Hwf Hc Hp Hd).
Defined.

(** ** The solver finds a solution when it says so *)

Lemma digit_board_alt b :
  digit_board b ↔ Forall (Forall (λ v, 0 ≤ v ≤ 9)%Z) b.
Proof.
  unfold digit_board, cell. rewrite Forall_lookup.
  setoid_rewrite Forall_lookup. split.
  - intros H r row Hrow c v Hv. apply (H (r, c)). simpl. by rewrite Hrow.
  - intros H [r c] v Hv. simpl in Hv.
    destruct (b !! r) as [row|] eqn:Hrow; [|done]. by eapply H.
Qed.

Global Instance digit_board_dec b : Decision (digit_board b).
Proof.
  refine (cast_if (decide (Forall (Forall (λ v, 0 ≤ v ≤ 9)%Z) b)));
    abstract (by rewrite digit_board_alt).
Defined.

Lemma solve_post_solution b f :
  wf b → digit_board b → consistent b → solve_post b true f → solution b f.
Proof.
  intros Hwf Hdig Hc (Hwf' & Hkeep & Hplaced).
  split; [done|]. split; [done|]. split.
  - intros p q Hp Hq Hpeer v Hv Hv0 Hqv.
    destruct (cell_is_Some b p Hwf Hp) as [vp Hvp].
    destruct (cell_is_Some b q Hwf Hq) as [vq Hvq].
    destruct (decide (vp = 0%Z)) as [->|Hp0].
    { destruct (Hplaced p Hvp) as (d & _ & Hd & Huniq).
      apply (Huniq q Hq Hpeer). congruence. }
    destruct (decide (vq = 0%Z)) as [->|Hq0].
    { destruct (Hplaced q Hvq) as (d & _ & Hd & Huniq).
      apply (Huniq p Hp (peer_sym _ _ Hpeer)). congruence. }
    pose proof (Hkeep p vp Hvp Hp0). pose proof (Hkeep q vq Hvq Hq0).
    apply (Hc p q Hp Hq Hpeer vp Hvp Hp0). congruence.
  - intros p Hp. destruct (cell_is_Some b p Hwf Hp) as [v Hv].
    destruct (decide (v = 0%Z)) as [->|Hv0].
    + destruct (Hplaced p Hv) as (d & Hd & Hfd & _). by exists d.
    + exists v. split; [|by apply Hkeep]. pose proof (Hdig p v Hv). lia.
Qed.

Lemma complete_no_empty f : complete f → no_empty f.
Proof. intros Hf p Hp. destruct (Hf p Hp) as (d & Hd & ->). intros [=]. lia. Qed.

Global Instance unit_cells_dec cells : Decision (unit_cells cells).
Proof. unfold unit_cells. apply _. Defined.

Lemma units_are_unit_cells :
  Forall (λ k,
    unit_cells (row_cells k) ∧ unit_cells (col_cells k) ∧
    unit_cells (box_cells (k / 3 * 3) (k mod 3 * 3))) (seq 0 SIZE).
Proof. by_compute. Qed.

Lemma unit_cells_perm g cells :
  consistent g → complete g → unit_cells cells →
  vals g cells ≡ₚ Some <$> digits.
Proof.
  intros Hc Hfull (Hlen & Hnd & Hon & Hunit).
  rewrite Forall_forall in Hon, Hunit.
  apply submseteq_length_Permutation.
  - apply NoDup_submseteq.
    + apply NoDup_fmap_2_strong; [|done]. intros p q Hp Hq Heq.
      destruct (decide (p = q)) as [|Hne]; [done|]. exfalso.
      destruct (Hfull p (Hon p Hp)) as (d & Hd & Hpd).
      apply (Hc p q (Hon p Hp) (Hon q Hq)) with (v := d);
        [|done|lia|congruence].
      split; [done|]. specialize (Hunit p Hp). rewrite Forall_forall in Hunit.
      by apply Hunit.
    + intros x (p & -> & Hp)%list_elem_of_fmap.
      destruct (Hfull p (Hon p Hp)) as (d & Hd & ->).
      apply list_elem_of_fmap. exists d. split; [done|].
      unfold digits. apply elem_of_seqZ. lia.
  - unfold vals. by rewrite !length_fmap, Hlen.
Qed.

Lemma solution_units b g : solution b g → all_units_perm g.
Proof.
  intros (_ & _ & Hc & Hfull). unfold all_units_perm.
  eapply Forall_impl; [apply units_are_unit_cells|].
  intros k (Hrow & Hcol & Hbox).
  split; [|split]; by apply unit_cells_perm.
Qed.

(** X5.  On a consistent 9x9 board of entries 0-9, when [solveSudoku]
    returns true the board it leaves is a solution of the board given:
    every cell holds a digit 1-9, the clues are kept, no digit is
    repeated, and every row, column and 3x3 box is a permutation of
    1-9. *)
Theorem solveSudoku_true_solves fuel b f :
  wf b → digit_board b → consistent b →
  solveSudoku fuel b = Ret (true, f) →
  solution b f ∧ no_empty f ∧ all_units_perm f.
Proof.
  intros Hwf Hdig Hc Hrun. apply solveSudoku_sound in Hrun; [|done].
  pose proof (solve_post_solution b f Hwf Hdig Hc Hrun) as Hsol.
  split; [done|]. split; [|by eapply solution_units].
  apply complete_no_empty, Hsol.
Qed.

Lemma solveSudoku_true_solves_witness :
  wf dented_board ∧ digit_board dented_board ∧ consistent dented_board ∧
  solveSudoku 3 dented_board = Ret (true, solved_board) ∧
  solution dented_board solved_board ∧ no_empty solved_board ∧
  all_units_perm solved_board.
Proof.
  assert (wf dented_board) as Hwf by by_compute.
  assert (digit_board dented_board) as Hdig by by_compute.
  assert (consistent dented_board) as Hc by by_compute.
  assert (solveSudoku 3 dented_board = Ret (true, solved_board)) as Hrun
    by (vm_compute; reflexivity).
  split; [exact Hwf|]. split; [exact Hdig|]. split; [exact Hc|].
  split; [exact Hrun|].
  apply (solveSudoku_true_solves 3 dented_board solved_board Hwf Hdig Hc Hrun).
Defined.

(** ** The solver gives up only when there is no solution *)

Lemma solution_place b g p d :
  solution b g → cell g p = Some d → solution (upd b p d) g.
Proof.
  intros (Hwf & Hkeep & Hc & Hfull) Hgp. split; [done|]. split; [|done].
  intros q v Hq Hv. rewrite cell_upd in Hq.
  destruct (decide (p = q)) as [<-|]; [|by apply Hkeep].
  destruct (cell b p); simplify_eq/=. done.
Qed.

Lemma solution_not_occurs b g p d :
  solution b g → cell b p = Some 0%Z → cell g p = Some d → d ≠ 0%Z →
  on_board p → ¬ occurs b d p.
Proof.
  intros (Hwf & Hkeep & Hc & Hfull) Hp Hgp Hd Hon (q & Hq & Hunit & Hqd).
  assert (p ≠ q) as Hne by (intros <-; congruence).
  apply (Hc p q Hon Hq (conj Hne Hunit) d Hgp Hd). by apply Hkeep.
Qed.

Section try_digits_complete.
Context (solve : Board → outcome (bool * Board)).
Context (solve_sound :
  ∀ b ok f, wf b → solve b = Ret (ok, f) → solve_post b ok f).
Context (solve_complete :
  ∀ b f, wf b → solve b = Ret (false, f) → ¬ ∃ g, solution b g).

Lemma try_digits_complete r c ds b f g d :
  wf b → cell b (r, c) = Some 0%Z → Forall (λ d, d ≠ 0%Z) ds →
  try_digits solve r c ds b = Ret (false, f) →
  solution b g → cell g (r, c) = Some d → d ∉ ds.
Proof.
  intros Hwf Hp Hds Hrun Hsol Hgp.
  assert (on_board (r, c)) as Hon by exact (cell_on_board b _ _ Hwf Hp).
  induction Hds as [|d0 ds Hd0 _ IH]; [apply not_elem_of_nil|].
  simpl in Hrun. inv_bind Hrun. apply not_elem_of_cons.
  destruct x as [|].
  - apply isSafe_true in Hx.
    inv_bind Hrun. apply write_Ret in Hx0 as ->.
    inv_bind Hrun. destruct x as [ok2 f2].
    destruct ok2; [done|].
    pose proof (solve_complete _ _ (wf_upd b (r, c) d0 Hwf) Hx0) as Hnone.
    apply solve_sound in Hx0; [|by apply wf_upd]. simpl in Hx0. subst f2.
    inv_bind Hrun. apply write_Ret in Hx0 as ->.
    rewrite upd_upd, upd_id in Hrun by done. split; [|by apply IH].
    intros ->. apply Hnone. exists g. by apply solution_place.
  - apply isSafe_false in Hx; [|done]. split; [|by apply IH].
    intros ->. by apply (solution_not_occurs b g (r, c) d0).
Qed.
End try_digits_complete.

Lemma solveSudoku_no_solution fuel b f :
  wf b → solveSudoku fuel b = Ret (false, f) → ¬ ∃ g, solution b g.
Proof.
  revert b f. induction fuel as [|fuel IH]; intros b f Hwf H [g Hsol];
    rewrite solveSudoku_unfold in H; inv_bind H;
    apply findEmpty_Ret in Hx; destruct x as [[r c]|]; try done.
  destruct Hx as [Hon Hp].
  destruct Hsol as (Hwfg & Hkeep & Hc & Hfull).
  destruct (Hfull (r, c) Hon) as (d & Hd & Hgp).
  eapply (try_digits_complete _ (solveSudoku_sound fuel) IH r c digits b f g d);
    try done.
  - eapply Forall_impl; [apply digits_range|]. intros x ?. simpl in *. lia.
  - unfold digits. apply elem_of_seqZ. lia.
Qed.

(** X6.  When [solveSudoku] returns false on a 9x9 board, the board has
    no solution: no 9x9 board of digits 1-9 that keeps its clues is free
    of repeated digits. *)
Theorem solveSudoku_false_no_solution fuel b f g :
  wf b → solveSudoku fuel b = Ret (false, f) → ¬ solution b g.
Proof.
  intros Hwf Hrun Hsol.
  apply (solveSudoku_no_solution fuel b f Hwf Hrun). by exists g.
Qed.

Lemma solveSudoku_false_no_solution_witness :
  wf stuck_board ∧ solveSudoku 1 stuck_board = Ret (false, stuck_board) ∧
  ¬ solution stuck_board solved_board.
Proof.
  assert (wf stuck_board) as Hwf by by_compute.
  assert (solveSudoku 1 stuck_board = Ret (false, stuck_board)) as Hrun
    by (vm_compute; reflexivity).
  split; [exact Hwf|]. split; [exact Hrun|].
  apply (solveSudoku_false_no_solution 1 stuck_board stuck_board solved_board
           Hwf Hrun).
Defined.

(** ** The solution found is the first in the order of the search *)

Global Instance solves_at_dec b g p : Decision (solves_at b g p).
Proof. unfold solves_at. destruct (cell b p), (cell g p); apply _. Defined.

(** A check of [solution] that can be run. *)
Lemma solution_check b g :
  wf b → wf g → consistent g → Forall (solves_at b g) all_cells →
  solution b g.
Proof.
  intros Hwf Hwfg Hc Hall. rewrite Forall_forall in Hall.
  split; [done|]. split; [|split; [done|]].
  - intros p v Hv Hv0.
    assert (on_board p) as Hp by exact (cell_on_board b _ _ Hwf Hv).
    apply elem_of_all_cells, Hall in Hp. unfold solves_at in Hp.
    rewrite Hv in Hp. destruct (cell g p); [|done].
    destruct Hp as [_ [->| ->]]; done.
  - intros p Hp. pose proof Hp as Hat.
    apply elem_of_all_cells, Hall in Hat. unfold solves_at in Hat.
    destruct (cell b p); [|done]. destruct (cell g p) as [d|]; [|done].
    exists d. by destruct Hat.
Qed.

Lemma digits_sorted : StronglySorted Z.lt digits.
Proof. by_compute. Qed.

Lemma findEmpty_before b o :
  findEmpty b = Ret o →
  match o with
  | Some p => ∀ q, on_board q → before q p → cell b q ≠ Some 0%Z
  | None => True
  end.
Proof.
  destruct o as [p|]; [|done]. intros (l1 & l2 & Heq & Hl1)%scan_first.
  intros q Hq Hbefore. apply Hl1. by eapply all_cells_before.
Qed.

(** A board without empty cells has itself as only solution. *)
Lemma solution_full b g :
  wf b → no_empty b → solution b g → lex_le b g.
Proof.
  intros Hwf Hno (_ & Hkeep & _). left. intros p Hp.
  destruct (cell_is_Some b p Hwf Hp) as [v Hv]. rewrite Hv. symmetry.
  apply Hkeep; [done|]. intros ->. by apply (Hno p).
Qed.

Section try_digits_first.
Context (solve : Board → outcome (bool * Board)).
Context (solve_sound :
  ∀ b ok f, wf b → solve b = Ret (ok, f) → solve_post b ok f).
Context (solve_complete :
  ∀ b f, wf b → solve b = Ret (false, f) → ¬ ∃ g, solution b g).
Context (solve_first :
  ∀ b f g, wf b → solve b = Ret (true, f) → solution b g → lex_le f g).

Lemma try_digits_first r c ds b f g d :
  wf b → cell b (r, c) = Some 0%Z →
  (∀ q, on_board q → before q (r, c) → cell b q ≠ Some 0%Z) →
  StronglySorted Z.lt ds → Forall (λ d, d ≠ 0%Z) ds →
  try_digits solve r c ds b = Ret (true, f) →
  solution b g → cell g (r, c) = Some d → d ∈ ds → lex_le f g.
Proof.
  intros Hwf Hp Hfirst Hsorted Hds Hrun Hsol Hgp.
  assert (on_board (r, c)) as Hon by exact (cell_on_board b _ _ Hwf Hp).
  induction Hds as [|d0 ds Hd0 _ IH]; intros Hd; [by apply elem_of_nil in Hd|].
  apply StronglySorted_cons in Hsorted as [Hlt Hsorted].
  simpl in Hrun. inv_bind Hrun. destruct x as [|].
  - apply isSafe_true in Hx.
    inv_bind Hrun. apply write_Ret in Hx0 as ->.
    inv_bind Hrun. destruct x as [ok2 f2]. destruct ok2.
    + injection Hrun as <-.
      apply elem_of_cons in Hd as [->|Hd].
      { eapply solve_first; [by apply wf_upd | done | by apply solution_place]. }
      apply solve_sound in Hx0 as (_ & Hkeep & _); [|by apply wf_upd].
      right. exists (r, c), d0, d. split; [done|]. split.
      { apply Hkeep; [|done]. apply cell_upd_eq. by rewrite Hp. }
      split; [done|]. split.
      { rewrite Forall_forall in Hlt. by apply Hlt. }
      intros q Hq Hbefore.
      destruct (cell_is_Some b q Hwf Hq) as [v Hv].
      assert (v ≠ 0%Z) as Hv0.
      { intros ->. by apply (Hfirst q Hq Hbefore). }
      destruct Hsol as (_ & Hkeepg & _).
      rewrite (Hkeepg q v Hv Hv0). apply Hkeep; [|done].
      rewrite cell_upd_ne; [done|]. intros <-. by apply (before_irrefl (r, c)).
    + pose proof (solve_complete _ _ (wf_upd b (r, c) d0 Hwf) Hx0) as Hnone.
      apply solve_sound in Hx0; [|by apply wf_upd]. simpl in Hx0. subst f2.
      inv_bind Hrun. apply write_Ret in Hx0 as ->.
      rewrite upd_upd, upd_id in Hrun by done. apply IH; [done..|].
      apply elem_of_cons in Hd as [->|Hd]; [|done].
      destruct Hnone. exists g. by apply solution_place.
  - apply isSafe_false in Hx; [|done]. apply IH; [done..|].
    apply elem_of_cons in Hd as [->|Hd]; [|done].
    by destruct (solution_not_occurs b g (r, c) d0).
Qed.
End try_digits_first.

(** X7.  When [solveSudoku] returns true on a 9x9 board, the board it
    leaves is the first solution in the order of the search: compared
    with any solution of the board given, it is the same, or it holds the
    smaller digit at the first cell, in row-major order, where the two
    differ. *)
Theorem solveSudoku_first_solution fuel b f g :
  wf b → solveSudoku fuel b = Ret (true, f) → solution b g → lex_le f g.
Proof.
  revert b f g. induction fuel as [|fuel IH]; intros b f g Hwf H Hsol;
    rewrite solveSudoku_unfold in H; inv_bind H;
    pose proof (findEmpty_before b _ Hx) as Hfirst;
    apply findEmpty_Ret in Hx; destruct x as [[r c]|]; try done;
    try (injection H as <-; by apply solution_full).
  destruct Hx as [Hon Hp].
  destruct (Hsol) as (_ & _ & _ & Hfull).
  destruct (Hfull (r, c) Hon) as (d & Hd & Hgp).
  eapply (try_digits_first _ (solveSudoku_sound fuel)
            (solveSudoku_no_solution fuel) IH r c digits b f g d);
    try done.
  - apply digits_sorted.
  - eapply Forall_impl; [apply digits_range|]. intros x ?. simpl in *. lia.
  - unfold digits. apply elem_of_seqZ. lia.
Qed.

Lemma solveSudoku_first_solution_witness :
  wf empty_board ∧ solveSudoku 81 empty_board = Ret (true, first_grid) ∧
  solution empty_board solved_board ∧ lex_le first_grid solved_board.
Proof.
  assert (wf empty_board) as Hwf by by_compute.
  assert (solveSudoku 81 empty_board = Ret (true, first_grid)) as Hrun
    by (vm_compute; reflexivity).
  assert (solution empty_board solved_board) as Hsol
    by (apply solution_check; by_compute).
  split; [exact Hwf|]. split; [exact Hrun|]. split; [exact Hsol|].
  apply (solveSudoku_first_solution 81 empty_board first_grid solved_board
           Hwf Hrun Hsol).
Defined.

(** ** Feedback on one cell agrees with the validator *)

(** X8.  On a 9x9 board, [markValidity] at a cell of the board adds no
    class when the cell is empty, and otherwise the class [invalid]
    exactly when [validateBoard] marks the cell, and [ok] when it does
    not; the status type is [error] exactly with the class [invalid]. *)
Theorem markValidity_agrees b r c :
  wf b → on_board (r, c) →
  ∃ cls text type valid marked,
    markValidity b r c = Ret (cls, (text, type)) ∧
    validateBoard b = Ret (valid, marked, b) ∧
    (cls = None ↔ cell b (r, c) = Some 0%Z) ∧
    (cls = Some "invalid"%string ↔ (r, c) ∈ marked) ∧
    (cls = None ∨ cls = Some "invalid"%string ∨ cls = Some "ok"%string) ∧
    (type = "error"%string ↔ cls = Some "invalid"%string).
Proof.
  intros Hwf Hon. assert (r < SIZE) as Hr by apply Hon.
  rewrite validateBoard_spec by done. unfold markValidity.
  rewrite read_wf by done.
  destruct (cell_is_Some b (r, c) Hwf Hon) as [v Hv]. rewrite Hv. simpl.
  assert ((r, c) ∈ filter (conflict b) all_cells ↔ conflict b (r, c)) as Hin.
  { rewrite list_elem_of_filter, elem_of_all_cells. tauto. }
  case_bool_decide as Hv0.
  { subst v. eexists _, _, _, _, _. split; [done|]. split; [done|].
    rewrite Hin. repeat split; try done; try by left.
    intros (v & Hv' & ? & _). congruence. }
  rewrite write_wf by done. simpl.
  pose proof (wf_upd b (r, c) 0%Z Hwf) as Hwf1.
  destruct (isSafe_total (upd b (r, c) 0%Z) r c v Hwf1 Hr) as [ok Hok].
  rewrite Hok. simpl.
  destruct ok; (eexists _, _, _, _, _; split; [done|]; split; [done|]);
    rewrite Hin.
  - apply isSafe_true in Hok. rewrite occurs_blanked in Hok by (done || eauto).
    repeat split; try done; try congruence; try by (right; right).
    intros (v' & Hv' & _ & ?). congruence.
  - apply isSafe_false in Hok; [|done].
    rewrite occurs_blanked in Hok by (done || eauto).
    repeat split; try done; try congruence; try by (right; left).
    by exists v.
Qed.

Lemma markValidity_agrees_witness :
  wf stuck_board ∧ on_board (3, 1) ∧
  ∃ cls text type valid marked,
    markValidity stuck_board 3 1 = Ret (cls, (text, type)) ∧
    validateBoard stuck_board = Ret (valid, marked, stuck_board) ∧
    (cls = None ↔ cell stuck_board (3, 1) = Some 0%Z) ∧
    (cls = Some "invalid"%string ↔ (3, 1) ∈ marked) ∧
    (cls = None ∨ cls = Some "invalid"%string ∨ cls = Some "ok"%string) ∧
    (type = "error"%string ↔ cls = Some "invalid"%string).
Proof.
  assert (wf stuck_board) as Hwf by by_compute.
  assert (on_board (3, 1)) as Hon by by_compute.
  split; [exact Hwf|]. split; [exact Hon|].
  apply (markValidity_agrees stuck_board 3 1 Hwf Hon).
Defined.

(** ** The solve button *)

(** X9.  On a 9x9 board of entries 0-9, [onSolve] marks what
    [validateBoard] marks, namely exactly the cells whose digit is held
    by another cell of their row, column or box, in row-major order, and
    then does one of three things.  If a digit is repeated it shows no
    board and asks to fix the conflicts.  Otherwise no cell is marked
    and, if the board has a solution, it shows a solution, with every
    row, column and box a permutation of 1-9; and if it has none, it
    shows the board as it was and says so. *)
Theorem onSolve_spec fuel b :
  wf b → digit_board b → count_empty b ≤ fuel →
  ∃ shown valid marked toast,
    onSolve fuel b = Ret (shown, marked, toast) ∧
    validateBoard b = Ret (valid, marked, b) ∧
    (∀ p, p ∈ marked ↔ on_board p ∧ conflict b p) ∧
    StronglySorted before marked ∧
    ((¬ consistent b ∧ shown = None ∧ marked ≠ [] ∧
      toast = "Fix conflicts first"%string) ∨
     (consistent b ∧ marked = [] ∧ toast = "Solved!"%string ∧
      ∃ f, shown = Some f ∧ solution b f ∧ all_units_perm f) ∨
     (consistent b ∧ marked = [] ∧ toast = "No solution found"%string ∧
      shown = Some b ∧ ∀ g, ¬ solution b g)).
Proof.
  intros Hwf Hdig Hfuel. unfold onSolve.
  rewrite validateBoard_spec by done. rewrite bind_Ret_l.
  assert (∀ p, p ∈ filter (conflict b) all_cells ↔ on_board p ∧ conflict b p)
    as Hmarked.
  { intros p. rewrite list_elem_of_filter, elem_of_all_cells. tauto. }
  pose proof (StronglySorted_filter_list before (conflict b) all_cells
                all_cells_sorted) as Hsorted.
  case_bool_decide as Hvalid; simpl.
  - pose proof Hvalid as Hc. apply no_conflict_consistent in Hc.
    pose proof Hvalid as Hnil. rewrite <- filter_nil_Forall in Hnil.
    destruct (solveSudoku_total fuel b Hwf Hfuel) as (ok & f & Hrun).
    rewrite Hrun. simpl. destruct ok.
    + eexists _, _, _, _. split; [done|]. split; [done|].
      split; [done|]. split; [done|]. right; left.
      repeat (split; [done|]). exists f. split; [done|].
      apply solveSudoku_sound in Hrun; [|done].
      pose proof (solve_post_solution b f Hwf Hdig Hc Hrun) as Hsol.
      split; [done | by eapply solution_units].
    + eexists _, _, _, _. split; [done|]. split; [done|].
      split; [done|]. split; [done|]. right; right.
      repeat (split; [done|]). intros g Hg.
      apply (solveSudoku_no_solution fuel b f Hwf Hrun). by exists g.
  - eexists _, _, _, _. split; [done|]. split; [done|].
    split; [done|]. split; [done|]. left.
    split; [by rewrite <- no_conflict_consistent|]. split; [done|].
    split; [|done]. by rewrite filter_nil_Forall.
Qed.

Lemma onSolve_spec_witness :
  wf dented_board ∧ digit_board dented_board ∧ count_empty dented_board ≤ 3 ∧
  ∃ shown valid marked toast,
    onSolve 3 dented_board = Ret (shown, marked, toast) ∧
    validateBoard dented_board = Ret (valid, marked, dented_board) ∧
    (∀ p, p ∈ marked ↔ on_board p ∧ conflict dented_board p) ∧
    StronglySorted before marked ∧
    ((¬ consistent dented_board ∧ shown = None ∧ marked ≠ [] ∧
      toast = "Fix conflicts first"%string) ∨
     (consistent dented_board ∧ marked = [] ∧ toast = "Solved!"%string ∧
      ∃ f, shown = Some f ∧ solution dented_board f ∧ all_units_perm f) ∨
     (consistent dented_board ∧ marked = [] ∧
      toast = "No solution found"%string ∧
      shown = Some dented_board ∧ ∀ g, ¬ solution dented_board g)).
Proof.
  assert (wf dented_board) as Hwf by by_compute.
  assert (digit_board dented_board) as Hdig by by_compute.
  assert (count_empty dented_board ≤ 3) as Hfuel by by_compute.
  split; [exact Hwf|]. split; [exact Hdig|]. split; [exact Hfuel|].
  apply (onSolve_spec 3 dented_board Hwf Hdig Hfuel).
Defined.

(** The three outcomes of [onSolve]: a board that is solved, a board
    without repeated digits that has no solution, and a board with a
    repeated digit. *)
Example onSolve_three_ways :
  onSolve 3 dented_board = Ret (Some solved_board, [], "Solved!"%string) ∧
  onSolve 2 (upd (upd (upd solved_board (0, 0) 0%Z) (0, 1) 5%Z) (3, 1) 0%Z)
    = Ret (Some (upd (upd (upd solved_board (0, 0) 0%Z) (0, 1) 5%Z) (3, 1) 0%Z),
           [], "No solution found"%string) ∧
  onSolve 1 stuck_board
    = Ret (None, [(0, 1); (3, 1)], "Fix conflicts first"%string).
Proof. vm_compute. done. Qed.

(** ** Loading a puzzle string *)

Lemma Number_range ch v : Number ch = Some v → (0 ≤ v ≤ 9)%Z.
Proof.
  unfold Number, decimal_digit. case_bool_decide; [intros [= <-]; lia|].
  destruct (white_space ch); [intros [= <-]; lia | done].
Qed.

Lemma cell_value_range str i v : cell_value str i = Some v → (0 ≤ v ≤ 9)%Z.
Proof.
  unfold cell_value. destruct (String.get i str) as [ch|]; [|done].
  case_bool_decide; [intros [= <-]; lia | apply Number_range].
Qed.

Lemma index_cell_lt i : i < 81 → on_board (i / 9, i mod 9).
Proof.
  intros Hi. unfold on_board, SIZE. cbn [fst snd]. split.
  - apply Nat.Div0.div_lt_upper_bound. lia.
  - apply Nat.mod_upper_bound. lia.
Qed.

Lemma index_cell_inj i j : i / 9 = j / 9 → i mod 9 = j mod 9 → i = j.
Proof.
  intros Hd Hm. rewrite (Nat.div_mod_eq i 9), (Nat.div_mod_eq j 9). lia.
Qed.

Lemma cell_index p : on_board p → p = ((p.1 * 9 + p.2) / 9, (p.1 * 9 + p.2) mod 9).
Proof.
  intros [H1 H2]. unfold SIZE in *. destruct p as [r c]. cbn [fst snd] in *.
  rewrite Nat.div_add_l, (Nat.div_small c) by lia.
  rewrite (Nat.add_comm (r * 9) c), Nat.Div0.mod_add, Nat.mod_small by lia.
  f_equal. lia.
Qed.

Lemma load_loop_spec str idx b :
  wf b → Forall (λ i, i < 81) idx → NoDup idx →
  ∃ o, load_loop str idx b = Ret o ∧
    match o with
    | Some b' =>
        wf b' ∧
        (∀ i, i ∈ idx → cell b' (i / 9, i mod 9) = cell_value str i) ∧
        (∀ q, (∀ i, i ∈ idx → (i / 9, i mod 9) ≠ q) → cell b' q = cell b q)
    | None => ∃ i, i ∈ idx ∧ cell_value str i = None
    end.
Proof.
  intros Hwf Hidx Hnd. revert b Hwf.
  induction Hidx as [|i idx Hi _ IH]; intros b Hwf; cbn [load_loop].
  { exists (Some b). split; [done|]. split; [done|]. split; [|done].
    intros i Hi. by apply elem_of_nil in Hi. }
  apply NoDup_cons in Hnd as [Hni Hnd].
  destruct (cell_value str i) as [v|] eqn:Hv.
  2:{ exists None. split; [done|]. exists i. split; [by left | done]. }
  pose proof (index_cell_lt i Hi) as Hon.
  rewrite write_wf by (done || apply Hon). rewrite bind_Ret_l.
  destruct (IH Hnd (upd b (i / 9, i mod 9) v)) as (o & Hrun & Ho).
  { by apply wf_upd. }
  exists o. split; [done|]. destruct o as [b'|].
  - destruct Ho as (Hwf' & Hin & Hout). split; [done|]. split.
    + intros j [->|Hj]%elem_of_cons; [|by apply Hin].
      rewrite Hout, Hv.
      * apply cell_upd_eq. by apply cell_is_Some.
      * intros j Hj [= Hd Hm]. apply Hni.
        by rewrite <- (index_cell_inj j i Hd Hm).
    + intros q Hq. rewrite Hout.
      * apply cell_upd_ne. apply Hq. by left.
      * intros j Hj. apply Hq. by right.
  - destruct Ho as (j & Hj & Hnone). exists j. split; [by right | done].
Qed.



(** White space and dots load as empty cells; a letter, or a string that
    is too short, gives no board. *)
Example loadPuzzle_white_space :
  loadPuzzle
    "53 .7 . .6 .195 . .98 . .6 8. .6 . 34. 8.3 .17 . 2. .6 6. . 28. . 419. 5. . 8. 79"
  = Ret (Some easy_board) ∧
  loadPuzzle
    "x30070000600195000098000060800060003400803001700020006060000280000419005000080079"
  = Ret None ∧
  loadPuzzle "53007" = Ret None.
Proof. vm_compute. done. Qed.

(** ** The two input handlers *)

Lemma keep_1_9_all s : all_1_9 (keep_1_9 s).
Proof.
  induction s as [|ch s IH]; simpl; [done|].
  destruct (is_1_9 ch) eqn:Hch; simpl; [by split | done].
Qed.

Lemma keep_1_9_id s : all_1_9 s → keep_1_9 s = s.
Proof.
  induction s as [|ch s IH]; simpl; [done|].
  intros [-> Hs]. by rewrite IH.
Qed.

Lemma keep_1_9_length s : String.length (keep_1_9 s) ≤ String.length s.
Proof.
  induction s as [|ch s IH]; simpl; [done|].
  destruct (is_1_9 ch); simpl; lia.
Qed.

Lemma keep_1_9_empty s : keep_1_9 s = EmptyString ↔ has_1_9 s = false.
Proof.
  induction s as [|ch s IH]; simpl; [done|].
  destruct (is_1_9 ch); simpl; [by split | done].
Qed.

(** X11.  The cleaning of the [input] handler leaves only characters
    1-9, changes nothing in a string of such characters (so cleaning
    twice is cleaning once) and never lengthens; and the [beforeinput]
    handler prevents exactly the insertions that the cleaning would wipe
    out entirely, so data with a digit among other characters gets
    through to be cleaned. *)
Theorem input_handlers_spec s :
  all_1_9 (keep_1_9 s) ∧
  keep_1_9 (keep_1_9 s) = keep_1_9 s ∧
  (all_1_9 s ↔ keep_1_9 s = s) ∧
  String.length (keep_1_9 s) ≤ String.length s ∧
  (beforeinput_prevented (Some s) = true ↔ keep_1_9 s = EmptyString) ∧
  beforeinput_prevented None = false.
Proof.
  split; [apply keep_1_9_all|]. split; [apply keep_1_9_id, keep_1_9_all|].
  split; [|split; [apply keep_1_9_length|split; [|done]]].
  - split; [apply keep_1_9_id|]. intros <-. apply keep_1_9_all.
  - simpl. rewrite keep_1_9_empty. by destruct (has_1_9 s).
Qed.

Example beforeinput_lets_mixed_data :
  beforeinput_prevented (Some "a5b"%string) = false ∧
  keep_1_9 "a5b" = "5"%string ∧
  beforeinput_prevented (Some "0"%string) = true.
Proof. done. Qed.

(** ** The grid of inputs and the board read from it *)

Lemma laid_out_createBoard : laid_out createBoard.
Proof. reflexivity. Qed.

Lemma all_cells_lookup r c :
  r < SIZE → c < SIZE → all_cells !! (r * SIZE + c) = Some (r, c).
Proof.
  intros Hr Hc.
  assert (Forall (λ r, Forall (λ c, all_cells !! (r * SIZE + c) = Some (r, c))
            (seq 0 SIZE)) (seq 0 SIZE)) as Hall by by_compute.
  rewrite Forall_forall in Hall.
  specialize (Hall r). rewrite Forall_forall in Hall.
  apply Hall; apply elem_of_seq; lia.
Qed.

Lemma all_cells_NoDup : NoDup all_cells.
Proof. by_compute. Qed.

Lemma laid_out_on_board inputs inp :
  laid_out inputs → inp ∈ inputs → on_board (position inp).
Proof.
  intros Hlay Hin. apply elem_of_all_cells. rewrite <- Hlay.
  apply list_elem_of_fmap. by exists inp.
Qed.

(** X12.  In a grid laid out by [createBoard], [inputs[r * SIZE + c]],
    the input that [markValidity] and [validateBoard] decorate for the
    cell [(r, c)], is the input whose [dataset] names that cell. *)
Theorem inputs_index inputs r c :
  laid_out inputs → r < SIZE → c < SIZE →
  ∃ inp, inputs !! (r * SIZE + c) = Some inp ∧
         dataset_row inp = r ∧ dataset_col inp = c.
Proof.
  intros Hlay Hr Hc. pose proof (all_cells_lookup r c Hr Hc) as Hcell.
  rewrite <- Hlay, list_lookup_fmap in Hcell.
  destruct (inputs !! (r * SIZE + c)) as [inp|]; [|done].
  injection Hcell as Hrow Hcol. by exists inp.
Qed.

Lemma inputs_index_witness :
  laid_out createBoard ∧ 2 < SIZE ∧ 3 < SIZE ∧
  ∃ inp, createBoard !! (2 * SIZE + 3) = Some inp ∧
         dataset_row inp = 2 ∧ dataset_col inp = 3.
Proof.
  assert (laid_out createBoard) as Hlay by reflexivity.
  assert (2 < SIZE) as Hr by (unfold SIZE; lia).
  assert (3 < SIZE) as Hc by (unfold SIZE; lia).
  split; [exact Hlay|]. split; [exact Hr|]. split; [exact Hc|].
  apply (inputs_index createBoard 2 3 Hlay Hr Hc).
Defined.

Lemma board_ext b b' :
  wf b → wf b' → (∀ p, on_board p → cell b p = cell b' p) → b = b'.
Proof.
  intros [Hlen Hrows] [Hlen' Hrows'] Hcells.
  rewrite Forall_lookup in Hrows, Hrows'.
  apply list_eq. intros r. destruct (decide (r < SIZE)) as [Hr|Hr].
  - destruct (lookup_lt_is_Some_2 b r) as [row Hrow]; [lia|].
    destruct (lookup_lt_is_Some_2 b' r) as [row' Hrow']; [lia|].
    rewrite Hrow, Hrow'. f_equal. apply list_eq. intros c.
    destruct (decide (c < SIZE)) as [Hc|Hc].
    + specialize (Hcells (r, c) (conj Hr Hc)). unfold cell in Hcells.
      simpl in Hcells. by rewrite Hrow, Hrow' in Hcells.
    + rewrite !lookup_ge_None_2; [done|..].
      * apply Hrows' in Hrow'. lia.
      * apply Hrows in Hrow. lia.
  - rewrite !lookup_ge_None_2; [done | lia..].
Qed.

Lemma getBoard_loop_spec inputs b :
  wf b → Forall (λ inp, on_board (position inp)) inputs →
  NoDup (position <$> inputs) →
  ∃ o, getBoard_loop inputs b = Ret o ∧
    match o with
    | Some b' =>
        wf b' ∧
        (∀ inp, inp ∈ inputs → cell b' (position inp) = input_number inp) ∧
        (∀ q, q ∉ position <$> inputs → cell b' q = cell b q)
    | None => ∃ inp, inp ∈ inputs ∧ input_number inp = None
    end.
Proof.
  intros Hwf Hon Hnd. revert b Hwf.
  induction Hon as [|inp inputs Hinp _ IH]; intros b Hwf; cbn [getBoard_loop].
  { exists (Some b). split; [done|]. split; [done|]. split; [|done].
    intros inp Hin. by apply elem_of_nil in Hin. }
  rewrite fmap_cons in Hnd. apply NoDup_cons in Hnd as [Hni Hnd].
  destruct (input_number inp) as [v|] eqn:Hv.
  2:{ exists None. split; [done|]. exists inp. split; [by left | done]. }
  rewrite write_wf by (done || apply Hinp). rewrite bind_Ret_l.
  change (dataset_row inp, dataset_col inp) with (position inp).
  destruct (IH Hnd (upd b (position inp) v)) as (o & Hrun & Ho).
  { by apply wf_upd. }
  exists o. split; [done|]. destruct o as [b'|].
  - destruct Ho as (Hwf' & Hin & Hout). split; [done|]. split.
    + intros inp' [->|Hin']%elem_of_cons; [|by apply Hin].
      rewrite Hout, Hv by done. apply cell_upd_eq. by apply cell_is_Some.
    + intros q Hq. rewrite fmap_cons, not_elem_of_cons in Hq.
      destruct Hq as [Hne Hq]. rewrite Hout by done. by apply cell_upd_ne.
  - destruct Ho as (inp' & Hin' & Hnone). exists inp'.
    split; [by right | done].
Qed.

(** X13.  From a grid laid out by [createBoard], [getBoard] never
    raises: it returns a 9x9 board whose cell for each input holds the
    number of the input's value, 0 for the empty value; or else the value
    of some input is not a number the model covers. *)
Theorem getBoard_spec inputs :
  laid_out inputs →
  ∃ o, getBoard inputs = Ret o ∧
    match o with
    | Some b =>
        wf b ∧ ∀ inp, inp ∈ inputs → cell b (position inp) = input_number inp
    | None => ∃ inp, inp ∈ inputs ∧ input_number inp = None
    end.
Proof.
  intros Hlay.
  destruct (getBoard_loop_spec inputs (replicate SIZE (replicate SIZE 0%Z)))
    as (o & Hrun & Ho).
  - by_compute.
  - apply Forall_forall. intros inp Hin. by eapply laid_out_on_board.
  - rewrite Hlay. apply all_cells_NoDup.
  - exists o. split; [done|]. destruct o as [b|]; [|done].
    by destruct Ho as (? & ? & _).
Qed.

Lemma getBoard_spec_witness :
  laid_out edited_inputs ∧
  ∃ o, getBoard edited_inputs = Ret o ∧
    match o with
    | Some b =>
        wf b ∧
        ∀ inp, inp ∈ edited_inputs → cell b (position inp) = input_number inp
    | None => ∃ inp, inp ∈ edited_inputs ∧ input_number inp = None
    end.
Proof.
  assert (laid_out edited_inputs) as Hlay by (vm_compute; reflexivity).
  split; [exact Hlay|]. apply (getBoard_spec edited_inputs Hlay).
Defined.

(** The grid of the first preset with a 5 typed at (0, 2) reads as the
    preset's board with that 5; a letter in an input is not read. *)
Example getBoard_edited :
  getBoard edited_inputs = Ret (Some (upd easy_board (0, 2) 5%Z)) ∧
  getBoard (<[2 := Input 0 2 "x" false []]> loaded_inputs) = Ret None.
Proof. vm_compute. done. Qed.

Lemma clean_input_number inp :
  clean_input inp → ∃ v, input_number inp = Some v ∧ (0 ≤ v ≤ 9)%Z.
Proof.
  unfold clean_input, input_number. destruct (value inp) as [|ch [|ch' s]]; simpl.
  - intros _. exists 0%Z. split; [done | lia].
  - intros [_ Hkeep]. unfold to_number. simpl.
    destruct (is_1_9 ch) eqn:Hch; [|done]. unfold is_1_9 in Hch.
    apply bool_decide_eq_true in Hch. unfold decimal_digit.
    rewrite bool_decide_eq_true_2 by lia. simpl.
    eexists. split; [done|]. lia.
  - intros [Hlen _]. lia.
Qed.

(** X14.  When every input of the grid holds the empty value or one
    character 1-9, as typing and the cleaning of the [input] handler
    leave them, [getBoard] returns a 9x9 board of entries 0-9: the boards
    the validator and the solver are given. *)
Theorem getBoard_clean inputs :
  laid_out inputs → Forall clean_input inputs →
  ∃ b, getBoard inputs = Ret (Some b) ∧ wf b ∧ digit_board b.
Proof.
  intros Hlay Hclean. rewrite Forall_forall in Hclean.
  destruct (getBoard_loop_spec inputs (replicate SIZE (replicate SIZE 0%Z)))
    as (o & Hrun & Ho).
  - by_compute.
  - apply Forall_forall. intros inp Hin. by eapply laid_out_on_board.
  - rewrite Hlay. apply all_cells_NoDup.
  - destruct o as [b|].
    + exists b. split; [done|]. destruct Ho as (Hwf & Hin & _).
      split; [done|]. intros p v Hp.
      pose proof (cell_on_board b p v Hwf Hp) as Hon.
      apply elem_of_all_cells in Hon. rewrite <- Hlay in Hon.
      apply list_elem_of_fmap in Hon as (inp & -> & Hinp).
      destruct (clean_input_number inp (Hclean inp Hinp)) as (v' & Hv' & Hr).
      rewrite Hin, Hv' in Hp by done. by injection Hp as <-.
    + destruct Ho as (inp & Hinp & Hnone).
      destruct (clean_input_number inp (Hclean inp Hinp)) as (v' & Hv' & _).
      congruence.
Qed.

Lemma getBoard_clean_witness :
  laid_out edited_inputs ∧ Forall clean_input edited_inputs ∧
  ∃ b, getBoard edited_inputs = Ret (Some b) ∧ wf b ∧ digit_board b.
Proof.
  assert (laid_out edited_inputs) as Hlay by (vm_compute; reflexivity).
  assert (Forall clean_input edited_inputs) as Hclean
    by (unfold clean_input; by_compute).
  split; [exact Hlay|]. split; [exact Hclean|].
  apply (getBoard_clean edited_inputs Hlay Hclean).
Defined.

(** ** Writing a board to the grid *)

Lemma digit_text v :
  (0 ≤ v ≤ 9)%Z →
  let text := if bool_decide (v = 0%Z) then EmptyString else String_of v in
  (if bool_decide (text = EmptyString) then Some 0%Z else to_number text)
    = Some v ∧
  String.length text ≤ 1 ∧ keep_1_9 text = text.
Proof.
  intros Hv. assert (v ∈ seqZ 0 10) as Hin by (apply elem_of_seqZ; lia).
  clear Hv. revert v Hin. apply Forall_forall. by_compute.
Qed.

Lemma class_toggle_elem c force l : c ∈ class_toggle c force l ↔ force = true.
Proof.
  unfold class_toggle, class_add, class_remove. destruct force.
  - split; [done|]. intros _. case_decide; [done|].
    apply elem_of_app. right. by left.
  - split; [|done]. by intros [? _]%list_elem_of_filter.
Qed.

Lemma class_remove_elem c c' l : c' ∈ class_remove c l ↔ c' ≠ c ∧ c' ∈ l.
Proof. unfold class_remove. by rewrite list_elem_of_filter. Qed.

Lemma setBoard_input_spec b mask inp :
  wf b → mask_ok mask → on_board (position inp) →
  ∃ v inp',
    cell b (position inp) = Some v ∧
    setBoard_input b mask inp = Ret inp' ∧
    position inp' = position inp ∧
    value inp' = (if bool_decide (v = 0%Z) then EmptyString else String_of v) ∧
    (readOnly inp' = true ↔ masked mask (position inp)) ∧
    ("prefilled"%string ∈ classList inp' ↔ readOnly inp' = true) ∧
    (∀ c, c ≠ "prefilled"%string → c ∈ classList inp' ↔ c ∈ classList inp).
Proof.
  intros Hwf Hmask Hon. unfold setBoard_input.
  destruct (cell_is_Some b _ Hwf Hon) as [v Hv]. exists v.
  rewrite read_wf by (done || apply Hon). rewrite bind_Ret_l.
  change (dataset_row inp, dataset_col inp) with (position inp).
  rewrite Hv. destruct mask as [m|]; simpl in Hmask.
  - rewrite read_wf by (done || apply Hon). rewrite bind_Ret_l.
    change (dataset_row inp, dataset_col inp) with (position inp).
    destruct (cell_is_Some m _ Hmask Hon) as [f Hf]. rewrite Hf.
    eexists. split; [done|]. split; [done|]. split; [done|]. split; [done|].
    cbn [readOnly classList]. split; [|split].
    + rewrite negb_true_iff, bool_decide_eq_false. split.
      * intros Hf0. by exists m, f.
      * intros (m' & f' & [= <-] & Hf' & Hf0). congruence.
    + apply class_toggle_elem.
    + intros c Hc. unfold class_toggle, class_add.
      destruct (negb _).
      * case_decide; [done|]. rewrite elem_of_app, list_elem_of_singleton.
        tauto.
      * rewrite class_remove_elem. tauto.
  - eexists. split; [done|]. split; [done|]. split; [done|]. split; [done|].
    cbn [readOnly classList]. split; [|split].
    + split; [done|]. by intros (m & f & [=] & _).
    + rewrite class_remove_elem. split; [by intros [? _] | done].
    + intros c Hc. rewrite class_remove_elem. tauto.
Qed.

Lemma setBoard_Forall2 b mask inputs inputs' :
  setBoard b mask inputs = Ret inputs' →
  Forall2 (λ inp inp', setBoard_input b mask inp = Ret inp') inputs inputs'.
Proof.
  revert inputs'. induction inputs as [|inp inputs IH]; intros inputs' H;
    simpl in H.
  - injection H as <-. constructor.
  - inv_bind H. inv_bind H. injection H as <-. constructor; [done | by apply IH].
Qed.

Lemma setBoard_total b mask inputs :
  wf b → mask_ok mask → Forall (λ inp, on_board (position inp)) inputs →
  ∃ inputs', setBoard b mask inputs = Ret inputs'.
Proof.
  intros Hwf Hmask. induction 1 as [|inp inputs Hon _ [inputs' IH]]; simpl.
  - by eexists.
  - destruct (setBoard_input_spec b mask inp Hwf Hmask Hon)
      as (v & inp' & _ & -> & _). rewrite IH. by eexists.
Qed.

Lemma setBoard_laid_out b mask inputs inputs' :
  wf b → mask_ok mask → laid_out inputs →
  setBoard b mask inputs = Ret inputs' → laid_out inputs'.
Proof.
  intros Hwf Hmask Hlay Hrun%setBoard_Forall2. unfold laid_out in *.
  rewrite <- Hlay.
  assert (Forall (λ inp, on_board (position inp)) inputs) as Hon.
  { apply Forall_forall. intros inp Hin. by eapply laid_out_on_board. }
  clear Hlay. induction Hrun as [|inp inp' inputs inputs' Hinp _ IH]; [done|].
  apply Forall_cons in Hon as [Hon Hons]. rewrite !fmap_cons, IH by done.
  destruct (setBoard_input_spec b mask inp Hwf Hmask Hon)
    as (v & inp2 & _ & Hrun2 & Hpos & _).
  rewrite Hrun2 in Hinp. injection Hinp as <-. by rewrite Hpos.
Qed.

(** What [setBoard] has made of each input. *)
Lemma setBoard_elem b mask inputs inputs' inp' :
  wf b → mask_ok mask → laid_out inputs →
  setBoard b mask inputs = Ret inputs' → inp' ∈ inputs' →
  ∃ v inp,
    inp ∈ inputs ∧ position inp' = position inp ∧
    cell b (position inp') = Some v ∧
    value inp' = (if bool_decide (v = 0%Z) then EmptyString else String_of v) ∧
    (readOnly inp' = true ↔ masked mask (position inp')) ∧
    ("prefilled"%string ∈ classList inp' ↔ readOnly inp' = true) ∧
    (∀ c, c ≠ "prefilled"%string → c ∈ classList inp' ↔ c ∈ classList inp).
Proof.
  intros Hwf Hmask Hlay Hrun%setBoard_Forall2 Hin.
  apply list_elem_of_lookup in Hin as [i Hi].
  destruct (Forall2_lookup_r _ _ _ _ _ Hrun Hi) as (inp & Hinp & Hset).
  assert (inp ∈ inputs) as Hin by (apply list_elem_of_lookup; eauto).
  destruct (setBoard_input_spec b mask inp Hwf Hmask)
    as (v & inp2 & Hv & Hrun2 & Hpos & Hval & Hro & Hcl & Hother).
  { by eapply laid_out_on_board. }
  rewrite Hrun2 in Hset. injection Hset as <-.
  exists v, inp. rewrite Hpos. done.
Qed.

Lemma getBoard_of_numbers inputs b :
  laid_out inputs → wf b →
  (∀ inp, inp ∈ inputs → input_number inp = cell b (position inp)) →
  getBoard inputs = Ret (Some b).
Proof.
  intros Hlay Hwf Hnum.
  destruct (getBoard_loop_spec inputs (replicate SIZE (replicate SIZE 0%Z)))
    as (o & Hget & Ho).
  - by_compute.
  - apply Forall_forall. intros inp Hin. by eapply laid_out_on_board.
  - rewrite Hlay. apply all_cells_NoDup.
  - unfold getBoard. rewrite Hget. destruct o as [b'|].
    + destruct Ho as (Hwf' & Hin & _). do 2 f_equal.
      apply board_ext; [done..|]. intros p Hp%elem_of_all_cells.
      rewrite <- Hlay in Hp. apply list_elem_of_fmap in Hp as (inp & -> & Hin').
      rewrite Hin by done. by apply Hnum.
    + destruct Ho as (inp & Hin & Hnone).
      rewrite (Hnum inp Hin) in Hnone.
      destruct (cell_is_Some b (position inp) Hwf) as [v Hv]; [|congruence].
      by eapply laid_out_on_board.
Qed.

(** X15.  Writing a 9x9 board of entries 0-9 to the grid with
    [setBoard], with or without a mask, and reading the grid back with
    [getBoard] gives the board again; the grid keeps its layout and every
    value is empty or one character 1-9. *)
Theorem setBoard_getBoard b mask inputs :
  wf b → digit_board b → mask_ok mask → laid_out inputs →
  ∃ inputs',
    setBoard b mask inputs = Ret inputs' ∧
    laid_out inputs' ∧ Forall clean_input inputs' ∧
    getBoard inputs' = Ret (Some b).
Proof.
  intros Hwf Hdig Hmask Hlay.
  destruct (setBoard_total b mask inputs Hwf Hmask) as [inputs' Hrun].
  { apply Forall_forall. intros inp Hin. by eapply laid_out_on_board. }
  exists inputs'. split; [done|].
  pose proof (setBoard_laid_out b mask inputs inputs' Hwf Hmask Hlay Hrun)
    as Hlay'.
  split; [done|].
  assert (∀ inp', inp' ∈ inputs' →
            input_number inp' = cell b (position inp') ∧ clean_input inp')
    as Hnum.
  { intros inp' Hin'.
    destruct (setBoard_elem b mask inputs inputs' inp' Hwf Hmask Hlay Hrun Hin')
      as (v & inp & _ & _ & Hv & Hval & _).
    unfold input_number, clean_input. rewrite Hval, Hv.
    destruct (digit_text v (Hdig _ _ Hv)) as (? & ? & ?). done. }
  split; [apply Forall_forall; intros inp' Hin'; by apply Hnum|].
  apply getBoard_of_numbers; [done..|]. intros inp' Hin'. by apply Hnum.
Qed.

Lemma setBoard_getBoard_witness :
  wf dented_board ∧ digit_board dented_board ∧ mask_ok None ∧
  laid_out createBoard ∧
  ∃ inputs',
    setBoard dented_board None createBoard = Ret inputs' ∧
    laid_out inputs' ∧ Forall clean_input inputs' ∧
    getBoard inputs' = Ret (Some dented_board).
Proof.
  assert (wf dented_board) as Hwf by by_compute.
  assert (digit_board dented_board) as Hdig by by_compute.
  assert (mask_ok None) as Hmask by exact I.
  assert (laid_out createBoard) as Hlay by reflexivity.
  split; [exact Hwf|]. split; [exact Hdig|]. split; [exact Hmask|].
  split; [exact Hlay|].
  apply (setBoard_getBoard dented_board None createBoard Hwf Hdig Hmask Hlay).
Defined.

(** X16.  After [setBoard], an input is read-only exactly when a mask
    was given and marks its cell, and it has the class [prefilled]
    exactly when it is read-only; its other classes are as before.
    Without a mask, as when a solved board is shown, every input is
    editable. *)
Theorem setBoard_flags b mask inputs inputs' inp' :
  wf b → mask_ok mask → laid_out inputs →
  setBoard b mask inputs = Ret inputs' → inp' ∈ inputs' →
  (readOnly inp' = true ↔ masked mask (position inp')) ∧
  ("prefilled"%string ∈ classList inp' ↔ readOnly inp' = true) ∧
  (mask = None → readOnly inp' = false) ∧
  ∃ inp, inp ∈ inputs ∧ position inp = position inp' ∧
         ∀ c, c ≠ "prefilled"%string → c ∈ classList inp' ↔ c ∈ classList inp.
Proof.
  intros Hwf Hmask Hlay Hrun Hin'.
  destruct (setBoard_elem b mask inputs inputs' inp' Hwf Hmask Hlay Hrun Hin')
    as (v & inp & Hin & Hpos & _ & _ & Hro & Hcl & Hother).
  split; [done|]. split; [done|]. split.
  - intros ->. destruct (readOnly inp'); [|done].
    destruct Hro as [Hro _]. by destruct (Hro eq_refl) as (m & f & [=] & _).
  - by exists inp.
Qed.

Global Instance input_eq_dec : EqDecision input.
Proof. solve_decision. Defined.

Lemma setBoard_flags_witness :
  wf easy_board ∧ mask_ok (Some easy_mask) ∧ laid_out edited_inputs ∧
  setBoard easy_board (Some easy_mask) edited_inputs
    = Ret (<[2 := Input 0 2 "" false ["invalid"%string]]> loaded_inputs) ∧
  Input 0 0 "5" true ["prefilled"%string]
    ∈ <[2 := Input 0 2 "" false ["invalid"%string]]> loaded_inputs ∧
  (readOnly (Input 0 0 "5" true ["prefilled"%string]) = true ↔
   masked (Some easy_mask)
     (position (Input 0 0 "5" true ["prefilled"%string]))) ∧
  ("prefilled"%string ∈ classList (Input 0 0 "5" true ["prefilled"%string]) ↔
   readOnly (Input 0 0 "5" true ["prefilled"%string]) = true) ∧
  (Some easy_mask = None →
   readOnly (Input 0 0 "5" true ["prefilled"%string]) = false) ∧
  ∃ inp, inp ∈ edited_inputs ∧
         position inp = position (Input 0 0 "5" true ["prefilled"%string]) ∧
         ∀ c, c ≠ "prefilled"%string →
              c ∈ classList (Input 0 0 "5" true ["prefilled"%string])
              ↔ c ∈ classList inp.
Proof.
  assert (wf easy_board) as Hwf by by_compute.
  assert (mask_ok (Some easy_mask)) as Hmask by (simpl; by_compute).
  assert (laid_out edited_inputs) as Hlay by (vm_compute; reflexivity).
  assert (setBoard easy_board (Some easy_mask) edited_inputs
    = Ret (<[2 := Input 0 2 "" false ["invalid"%string]]> loaded_inputs))
    as Hrun by (vm_compute; reflexivity).
  assert (Input 0 0 "5" true ["prefilled"%string]
    ∈ <[2 := Input 0 2 "" false ["invalid"%string]]> loaded_inputs)
    as Hin by by_compute.
  split; [exact Hwf|]. split; [exact Hmask|]. split; [exact Hlay|].
  split; [exact Hrun|]. split; [exact Hin|].
  apply (setBoard_flags easy_board (Some easy_mask) edited_inputs _
           (Input 0 0 "5" true ["prefilled"%string]) Hwf Hmask Hlay Hrun Hin).
Defined.

(** Shown without a mask, as [onSolve] does, the loaded grid loses its
    read-only clues. *)
Example setBoard_no_mask :
  setBoard easy_board None loaded_inputs
    = Ret ((λ inp, Input (dataset_row inp) (dataset_col inp) (value inp)
                     false []) <$> loaded_inputs).
Proof. vm_compute. reflexivity. Qed.

(** ** Clearing the grid *)

Lemma laid_out_fmap (f : input → input) inputs :
  (∀ inp, position (f inp) = position inp) →
  laid_out inputs → laid_out (f <$> inputs).
Proof.
  intros Hf Hlay. unfold laid_out in *. rewrite <- Hlay, <- list_fmap_compose.
  apply list_fmap_ext. intros i inp _. apply Hf.
Qed.

(** X17.  [onClear] on a grid laid out by [createBoard] never raises: it
    leaves every input empty and editable, with none of the classes
    [prefilled], [invalid] and [ok], and the board read back from the
    grid is the empty board. *)
Theorem onClear_spec inputs :
  laid_out inputs →
  ∃ inputs',
    onClear inputs = Ret (inputs', "Cleared"%string) ∧
    laid_out inputs' ∧
    getBoard inputs' = Ret (Some empty_board) ∧
    Forall (λ inp,
      value inp = EmptyString ∧ readOnly inp = false ∧
      ("prefilled"%string ∉ classList inp) ∧
      ("invalid"%string ∉ classList inp) ∧
      ("ok"%string ∉ classList inp)) inputs'.
Proof.
  intros Hlay. unfold onClear.
  assert (wf empty_board) as Hwf by by_compute.
  change (replicate SIZE (replicate SIZE 0%Z)) with empty_board.
  assert (mask_ok None) as Hmask by exact I.
  assert (laid_out (clearHighlights inputs)) as Hlay1 by by apply laid_out_fmap.
  destruct (setBoard_total empty_board None (clearHighlights inputs) Hwf Hmask)
    as [inputs2 Hrun].
  { apply Forall_forall. intros inp Hin. by eapply laid_out_on_board. }
  rewrite Hrun, bind_Ret_l. eexists. split; [done|].
  pose proof (setBoard_laid_out _ _ _ _ Hwf Hmask Hlay1 Hrun) as Hlay2.
  assert (laid_out ((λ inp, Input (dataset_row inp) (dataset_col inp)
            (value inp) false (class_remove "prefilled" (classList inp)))
            <$> inputs2)) as Hlay3 by by apply laid_out_fmap.
  split; [done|].
  assert (Forall (λ inp,
      value inp = EmptyString ∧ readOnly inp = false ∧
      ("prefilled"%string ∉ classList inp) ∧
      ("invalid"%string ∉ classList inp) ∧
      ("ok"%string ∉ classList inp))
      ((λ inp, Input (dataset_row inp) (dataset_col inp)
            (value inp) false (class_remove "prefilled" (classList inp)))
            <$> inputs2)) as Hall.
  { apply Forall_forall. intros inp3 (inp2 & -> & Hin2)%list_elem_of_fmap.
    cbn [value readOnly classList].
    destruct (setBoard_elem _ _ _ _ inp2 Hwf Hmask Hlay1 Hrun Hin2)
      as (v & inp1 & Hin1 & Hpos & Hv & Hval & _ & _ & Hother).
    rewrite cell_empty_board in Hv
      by exact (laid_out_on_board inputs2 inp2 Hlay2 Hin2).
    injection Hv as <-. split; [done|]. split; [done|].
    apply list_elem_of_fmap in Hin1 as (inp0 & -> & _).
    cbn [classList] in Hother.
    assert ("invalid"%string ≠ "prefilled"%string) as Hi by (intros ?; discriminate).
    assert ("ok"%string ≠ "prefilled"%string) as Ho by (intros ?; discriminate).
    rewrite !class_remove_elem, (Hother _ Hi), (Hother _ Ho).
    rewrite !class_remove_elem. tauto. }
  split; [|done]. apply getBoard_of_numbers; [done..|].
  intros inp3 Hin3.
  rewrite cell_empty_board by exact (laid_out_on_board _ inp3 Hlay3 Hin3).
  rewrite Forall_forall in Hall. destruct (Hall inp3 Hin3) as (Hval & _).
  unfold input_number. by rewrite Hval.
Qed.

Lemma onClear_spec_witness :
  laid_out edited_inputs ∧
  ∃ inputs',
    onClear edited_inputs = Ret (inputs', "Cleared"%string) ∧
    laid_out inputs' ∧
    getBoard inputs' = Ret (Some empty_board) ∧
    Forall (λ inp,
      value inp = EmptyString ∧ readOnly inp = false ∧
      ("prefilled"%string ∉ classList inp) ∧
      ("invalid"%string ∉ classList inp) ∧
      ("ok"%string ∉ classList inp)) inputs'.
Proof.
  assert (laid_out edited_inputs) as Hlay by (vm_compute; reflexivity).
  split; [exact Hlay|]. apply (onClear_spec edited_inputs Hlay).
Defined.

(** Clearing the edited grid gives the fresh grid of [createBoard]. *)
Example onClear_edited :
  onClear edited_inputs = Ret (createBoard, "Cleared"%string).
Proof. vm_compute. reflexivity. Qed.

(** ** Loading a puzzle into the grid *)

Lemma load_loop_mask_spec str idx b m :
  wf b → wf m → Forall (λ i, i < 81) idx → NoDup idx →
  ∃ o, load_loop_mask str idx b m = Ret o ∧
    match o with
    | Some (b', m') =>
        load_loop str idx b = Ret (Some b') ∧ wf m' ∧
        (∀ i v, i ∈ idx → cell_value str i = Some v →
           cell m' (i / 9, i mod 9)
             = Some (if bool_decide (v = 0%Z) then 0 else 1)%Z) ∧
        (∀ q, (∀ i, i ∈ idx → (i / 9, i mod 9) ≠ q) → cell m' q = cell m q)
    | None => load_loop str idx b = Ret None
    end.
Proof.
  intros Hwf Hwfm Hidx Hnd. revert b m Hwf Hwfm.
  induction Hidx as [|i idx Hi _ IH]; intros b m Hwf Hwfm;
    cbn [load_loop_mask load_loop].
  { exists (Some (b, m)). split; [done|]. split; [done|]. split; [done|].
    split; [|done]. intros i v Hi. by apply elem_of_nil in Hi. }
  apply NoDup_cons in Hnd as [Hni Hnd].
  destruct (cell_value str i) as [v|] eqn:Hv; [|by exists None].
  pose proof (index_cell_lt i Hi) as Hon.
  rewrite !write_wf by (done || apply Hon). rewrite !bind_Ret_l.
  destruct (IH Hnd (upd b (i / 9, i mod 9) v)
              (upd m (i / 9, i mod 9) (if bool_decide (v = 0%Z) then 0 else 1)%Z))
    as (o & Hrun & Ho); [by apply wf_upd..|].
  exists o. split; [done|]. destruct o as [[b' m']|]; [|done].
  destruct Ho as (Hload & Hwfm' & Hin & Hout).
  split; [done|]. split; [done|]. split.
  - intros j w [->|Hj]%elem_of_cons Hw; [|by apply Hin].
    rewrite Hout.
    + rewrite cell_upd_eq by by apply cell_is_Some.
      rewrite Hv in Hw. by injection Hw as <-.
    + intros j Hj [= Hd Hm]. apply Hni.
      by rewrite <- (index_cell_inj j i Hd Hm).
  - intros q Hq. rewrite Hout.
    + apply cell_upd_ne. apply Hq. by left.
    + intros j Hj. apply Hq. by right.
Qed.

Lemma loadPuzzle_Some str b :
  loadPuzzle str = Ret (Some b) →
  wf b ∧ digit_board b ∧
  ∀ i, i < 81 → cell b (i / 9, i mod 9) = cell_value str i.
Proof.
  intros Hload.
  destruct (load_loop_spec str (seq 0 81) (replicate SIZE (replicate SIZE 0%Z)))
    as (o & Hrun & Ho).
  - by_compute.
  - apply Forall_forall. intros i Hi%elem_of_seq. lia.
  - apply NoDup_seq.
  - unfold loadPuzzle in Hload. rewrite Hrun in Hload. injection Hload as ->.
    destruct Ho as (Hwf & Hin & _). split; [done|].
    assert (∀ i, i < 81 → cell b (i / 9, i mod 9) = cell_value str i) as Hcells.
    { intros i Hi. apply Hin, elem_of_seq. lia. }
    split; [|done]. intros p v Hp.
    pose proof (cell_on_board b p v Hwf Hp) as Hon.
    rewrite (cell_index p Hon), Hcells in Hp.
    + by eapply cell_value_range.
    + destruct Hon. unfold SIZE in *. nia.
Qed.

(** X18.  When a puzzle string parses, [loadPuzzle] writes the parsed
    board to the grid: the board read back with [getBoard] is that
    board, and an input is read-only, and has the class [prefilled],
    exactly when its cell holds a clue. *)
Theorem loadPuzzle_inputs_spec str b inputs :
  laid_out inputs → loadPuzzle str = Ret (Some b) →
  ∃ inputs',
    loadPuzzle_inputs str inputs = Ret (Some inputs') ∧
    laid_out inputs' ∧
    getBoard inputs' = Ret (Some b) ∧
    Forall (λ inp,
      (readOnly inp = true ↔ cell b (position inp) ≠ Some 0%Z) ∧
      ("prefilled"%string ∈ classList inp ↔ readOnly inp = true)) inputs'.
Proof.
  intros Hlay Hload.
  destruct (loadPuzzle_Some str b Hload) as (Hwf & Hdig & Hcells).
  assert (wf empty_board) as Hwf0 by by_compute.
  unfold loadPuzzle_inputs, loadPuzzle in *.
  change (replicate SIZE (replicate SIZE 0%Z)) with empty_board in *.
  destruct (load_loop_mask_spec str (seq 0 81) empty_board empty_board)
    as (o & Hrun & Ho); [done..| | |].
  { apply Forall_forall. intros i Hi%elem_of_seq. lia. }
  { apply NoDup_seq. }
  rewrite Hrun, bind_Ret_l. destruct o as [[b' m]|]; [|congruence].
  destruct Ho as (Hload' & Hwfm & Hmask & _).
  rewrite Hload in Hload'. injection Hload' as <-.
  destruct (setBoard_total b (Some m) inputs Hwf Hwfm) as [inputs' Hset].
  { apply Forall_forall. intros inp Hin. by eapply laid_out_on_board. }
  rewrite Hset, bind_Ret_l. exists inputs'. split; [done|].
  pose proof (setBoard_laid_out b (Some m) _ _ Hwf Hwfm Hlay Hset) as Hlay'.
  split; [done|].
  assert (∀ inp', inp' ∈ inputs' →
    input_number inp' = cell b (position inp') ∧
    (readOnly inp' = true ↔ cell b (position inp') ≠ Some 0%Z) ∧
    ("prefilled"%string ∈ classList inp' ↔ readOnly inp' = true)) as Hall.
  { intros inp' Hin'.
    destruct (setBoard_elem b (Some m) inputs inputs' inp' Hwf Hwfm Hlay Hset Hin')
      as (v & inp & _ & _ & Hv & Hval & Hro & Hcl & _).
    split; [|split; [|done]].
    - unfold input_number. rewrite Hval, Hv.
      by destruct (digit_text v (Hdig _ _ Hv)) as (? & _).
    - rewrite Hro.
      pose proof (laid_out_on_board inputs' inp' Hlay' Hin') as Hon.
      destruct (position inp') as [r c] eqn:Hp.
      pose proof (cell_index (r, c) Hon) as Hidx. cbn [fst snd] in Hidx.
      assert (r * 9 + c < 81) as Hlt.
      { clear -Hon. destruct Hon as [? ?]. unfold SIZE in *. cbn [fst snd] in *. nia. }
      pose proof (Hcells _ Hlt) as Hcell. rewrite <- Hidx, Hv in Hcell.
      pose proof (Hmask (r * 9 + c) v) as Hm. rewrite <- Hidx in Hm.
      rewrite elem_of_seq in Hm. specialize (Hm ltac:(lia) ltac:(done)).
      rewrite Hv. split.
      + intros (m' & f & [= <-] & Hf & Hf0) [= ->]. rewrite Hm in Hf.
        by injection Hf as <-.
      + intros Hv0. exists m, (if bool_decide (v = 0%Z) then 0 else 1)%Z.
        split; [done|]. split; [done|].
        rewrite bool_decide_eq_false_2; [done | congruence]. }
  split.
  - apply getBoard_of_numbers; [done..|]. intros inp' Hin'. by apply Hall.
  - apply Forall_forall. intros inp' Hin'. by apply Hall.
Qed.

(** The grid the first preset loads into. *)
Example loadPuzzle_inputs_easy :
  loadPuzzle_inputs PUZZLE_EASY createBoard = Ret (Some loaded_inputs).
Proof. vm_compute. reflexivity. Qed.

Lemma loadPuzzle_inputs_spec_witness :
  laid_out createBoard ∧ loadPuzzle PUZZLE_EASY = Ret (Some easy_board) ∧
  ∃ inputs',
    loadPuzzle_inputs PUZZLE_EASY createBoard = Ret (Some inputs') ∧
    laid_out inputs' ∧
    getBoard inputs' = Ret (Some easy_board) ∧
    Forall (λ inp,
      (readOnly inp = true ↔ cell easy_board (position inp) ≠ Some 0%Z) ∧
      ("prefilled"%string ∈ classList inp ↔ readOnly inp = true)) inputs'.
Proof.
  assert (laid_out createBoard) as Hlay by reflexivity.
  assert (loadPuzzle PUZZLE_EASY = Ret (Some easy_board)) as Hload
    by (vm_compute; reflexivity).
  split; [exact Hlay|]. split; [exact Hload|].
  apply (loadPuzzle_inputs_spec PUZZLE_EASY easy_board createBoard Hlay Hload).
Defined.

(** ** Boards that are not 9x9 *)

(** X19.  [isSafe] does not check its coordinates: with a row index past
    the rows of the board it raises a [TypeError], whatever the board,
    the column and the value. *)
Theorem isSafe_missing_row b r c val :
  length b ≤ r → isSafe b r c val = TypeError.
Proof.
  intros Hr. unfold isSafe, row_cells. cbn [SIZE seq fmap list_fmap scan].
  unfold read. by rewrite lookup_ge_None_2.
Qed.

Lemma isSafe_missing_row_witness :
  length [[1; 2]; [3; 4]]%Z ≤ 2 ∧ isSafe [[1; 2]; [3; 4]]%Z 2 0 1 = TypeError.
Proof.
  assert (length [[1; 2]; [3; 4]]%Z ≤ 2) as Hr by (simpl; lia).
  split; [exact Hr|]. apply (isSafe_missing_row [[1; 2]; [3; 4]]%Z 2 0 1 Hr).
Defined.

Lemma write_length b r c v b' : write b r c v = Ret b' → length b' = length b.
Proof.
  unfold write. destruct (b !! r); [|done]. intros [= <-].
  apply length_insert.
Qed.

Lemma scan_None_rows b val cells :
  scan b val cells = Ret None → ∀ p, p ∈ cells → p.1 < length b.
Proof.
  induction cells as [|[i j] rest IH]; simpl; intros H p Hp.
  { by apply elem_of_nil in Hp. }
  inv_bind H. case_bool_decide; [done|].
  apply elem_of_cons in Hp as [->|Hp]; [|by apply IH].
  unfold read in Hx. destruct (b !! i) eqn:Hi; [|done].
  by apply lookup_lt_Some in Hi.
Qed.

Section try_digits_rows.
Context (solve : Board → outcome (bool * Board)).
Context (solve_rows : ∀ b ok f, solve b = Ret (ok, f) →
  length f = length b ∧ (ok = true → SIZE ≤ length b)).

Lemma try_digits_rows r c ds b ok f :
  try_digits solve r c ds b = Ret (ok, f) →
  length f = length b ∧ (ok = true → SIZE ≤ length b).
Proof.
  revert b. induction ds as [|d ds IH]; intros b H; simpl in H.
  { by injection H as <- <-. }
  inv_bind H. destruct x as [|]; [|by apply IH].
  inv_bind H. apply write_length in Hx0 as Hlen1.
  inv_bind H. destruct x0 as [ok2 f2].
  apply solve_rows in Hx1 as [Hlen2 Hok2]. destruct ok2.
  - injection H as <- <-. split; [congruence|]. intros _.
    rewrite <- Hlen1. by apply Hok2.
  - inv_bind H. apply write_length in Hx1 as Hlen3.
    apply IH in H as [Hlen Hok]. split; [congruence|].
    intros Htrue. specialize (Hok Htrue). congruence.
Qed.
End try_digits_rows.

Lemma solveSudoku_rows fuel b ok f :
  solveSudoku fuel b = Ret (ok, f) →
  length f = length b ∧ (ok = true → SIZE ≤ length b).
Proof.
  revert b ok f. induction fuel as [|fuel IH]; intros b ok f H;
    rewrite solveSudoku_unfold in H; inv_bind H;
    destruct x as [[r c]|]; try done.
  - injection H as <- <-. split; [done|]. intros _.
    apply (scan_None_rows b 0%Z all_cells Hx (8, 0)). by_compute.
  - by eapply try_digits_rows.
  - injection H as <- <-. split; [done|]. intros _.
    apply (scan_None_rows b 0%Z all_cells Hx (8, 0)). by_compute.
Qed.

(** X20.  On a board with fewer than nine rows [solveSudoku] never
    reports success: it returns false or raises, and a board it returns
    has as many rows as the board given. *)
Theorem solveSudoku_short_board fuel b ok f :
  length b < SIZE → solveSudoku fuel b = Ret (ok, f) →
  ok = false ∧ length f = length b.
Proof.
  intros Hlen Hrun. apply solveSudoku_rows in Hrun as [Hf Hok].
  split; [|done]. destruct ok; [|done]. specialize (Hok eq_refl). lia.
Qed.

Lemma solveSudoku_short_board_witness :
  length [[0; 1; 2; 3; 4; 5; 6; 7; 8]; [9; 1; 2; 3; 4; 5; 6; 7; 8]]%Z < SIZE ∧
  solveSudoku 1 [[0; 1; 2; 3; 4; 5; 6; 7; 8]; [9; 1; 2; 3; 4; 5; 6; 7; 8]]%Z
    = Ret (false, [[0; 1; 2; 3; 4; 5; 6; 7; 8]; [9; 1; 2; 3; 4; 5; 6; 7; 8]]%Z) ∧
  false = false ∧
  length [[0; 1; 2; 3; 4; 5; 6; 7; 8]; [9; 1; 2; 3; 4; 5; 6; 7; 8]]%Z = length [[0; 1; 2; 3; 4; 5; 6; 7; 8]; [9; 1; 2; 3; 4; 5; 6; 7; 8]]%Z.
Proof.
  assert (length [[0; 1; 2; 3; 4; 5; 6; 7; 8]; [9; 1; 2; 3; 4; 5; 6; 7; 8]]%Z < SIZE) as Hlen
    by (unfold SIZE; simpl; lia).
  assert (solveSudoku 1 [[0; 1; 2; 3; 4; 5; 6; 7; 8]; [9; 1; 2; 3; 4; 5; 6; 7; 8]]%Z
            = Ret (false, [[0; 1; 2; 3; 4; 5; 6; 7; 8]; [9; 1; 2; 3; 4; 5; 6; 7; 8]]%Z)) as Hrun
    by (vm_compute; reflexivity).
  split; [exact Hlen|]. split; [exact Hrun|].
  apply (solveSudoku_short_board 1 _ false _ Hlen Hrun).
Defined.

(** ** The presets *)

(** X21.  [generateNext] keeps the puzzle index within the presets and
    comes back to it after four calls; the string it loads is always
    there, parses to a consistent 9x9 board, and that board is one the
    solver solves. *)
Theorem generateNext_cycle i :
  i < length PUZZLES →
  (generateNext i).1 < length PUZZLES ∧
  Nat.iter 4 (λ k, (generateNext k).1) i = i ∧
  ∃ str b f,
    (generateNext i).2 = Some str ∧ loadPuzzle str = Ret (Some b) ∧
    wf b ∧ consistent b ∧ solveSudoku 81 b = Ret (true, f).
Proof.
  intros Hi.
  destruct i as [|[|[|[|i]]]]; [..|simpl in Hi; lia];
    (split; [simpl; lia|]); (split; [reflexivity|]);
    eexists _, _, _; (split; [reflexivity|]);
    (split; [vm_compute; reflexivity|]);
    (split; [by_compute|]); (split; [by_compute|]);
    vm_compute; reflexivity.
Qed.

Lemma generateNext_cycle_witness :
  0 < length PUZZLES ∧
  (generateNext 0).1 < length PUZZLES ∧
  Nat.iter 4 (λ k, (generateNext k).1) 0 = 0 ∧
  ∃ str b f,
    (generateNext 0).2 = Some str ∧ loadPuzzle str = Ret (Some b) ∧
    wf b ∧ consistent b ∧ solveSudoku 81 b = Ret (true, f).
Proof.
  assert (0 < length PUZZLES) as Hi by (simpl; lia).
  split; [exact Hi|]. apply (generateNext_cycle 0 Hi).
Defined.
